(** * cactus: discovery, scanning, size accounting and purging of ignored
    build directories (src/main.rs), shallowly embedded. *)

From Stdlib Require Import List String Ascii NArith Arith Lia Bool.
From Stdlib Require Import Sorting.Sorted Sorting.Permutation.
From Stdlib Require Import DecimalString DecimalN.
Import ListNotations.
Open Scope string_scope.
Open Scope list_scope.
Set Warnings "-register-all".

(** ** Strings and UTF-8

    A Unix [OsStr] is a sequence of bytes; a Rocq [string] is a sequence of
    8-bit [ascii] characters, so a basename is modelled as a [string].
    [OsStr::to_str] succeeds exactly on valid UTF-8, and [Path::display]
    replaces every maximal invalid subpart by U+FFFD, as
    [String::from_utf8_lossy] does. *)

Inductive piece := Char (bytes : string) | Bad.

Definition byte (c : ascii) : N := N_of_ascii c.

Definition in_range (lo hi : N) (c : ascii) : bool :=
  (lo <=? byte c)%N && (byte c <=? hi)%N.

Definition is_cont (c : ascii) : bool := in_range 128%N 191%N c.

(** For a lead byte of a multi-byte sequence: the number of continuation
    bytes and the admissible range of the first one. *)
Definition lead_info (x : N) : option (nat * N * N) :=
  if ((194 <=? x) && (x <=? 223))%N then Some (1, 128%N, 191%N)
  else if (x =? 224)%N then Some (2, 160%N, 191%N)
  else if ((225 <=? x) && (x <=? 236))%N then Some (2, 128%N, 191%N)
  else if (x =? 237)%N then Some (2, 128%N, 159%N)
  else if ((238 <=? x) && (x <=? 239))%N then Some (2, 128%N, 191%N)
  else if (x =? 240)%N then Some (3, 144%N, 191%N)
  else if ((241 <=? x) && (x <=? 243))%N then Some (3, 128%N, 191%N)
  else if (x =? 244)%N then Some (3, 128%N, 143%N)
  else None.

Fixpoint utf8_pieces (s : string) : list piece :=
  match s with
  | EmptyString => []
  | String b0 r0 =>
    if (byte b0 <? 128)%N then Char (String b0 EmptyString) :: utf8_pieces r0
    else
    match lead_info (byte b0) with
    | None => Bad :: utf8_pieces r0
    | Some (need, lo, hi) =>
      match r0 with
      | EmptyString => [Bad]
      | String b1 r1 =>
        if in_range lo hi b1 then
          match need with
          | 1 => Char (String b0 (String b1 EmptyString)) :: utf8_pieces r1
          | _ =>
            match r1 with
            | EmptyString => [Bad]
            | String b2 r2 =>
              if is_cont b2 then
                match need with
                | 2 => Char (String b0 (String b1 (String b2 EmptyString)))
                         :: utf8_pieces r2
                | _ =>
                  match r2 with
                  | EmptyString => [Bad]
                  | String b3 r3 =>
                    if is_cont b3 then
                      Char (String b0 (String b1 (String b2 (String b3 EmptyString))))
                        :: utf8_pieces r3
                    else Bad :: utf8_pieces r2
                  end
                end
              else Bad :: utf8_pieces r1
            end
          end
        else Bad :: utf8_pieces r0
      end
    end
  end.

Definition utf8_valid (s : string) : bool :=
  forallb (fun p => match p with Char _ => true | Bad => false end)
          (utf8_pieces s).

(** U+FFFD REPLACEMENT CHARACTER, UTF-8 encoded. *)
Definition replacement : string :=
  String (ascii_of_nat 239) (String (ascii_of_nat 191)
    (String (ascii_of_nat 189) EmptyString)).

Definition to_string_lossy (s : string) : string :=
  fold_right (fun p acc => match p with Char b => String.append b acc | Bad => String.append replacement acc end)
             EmptyString (utf8_pieces s).

(** [name.to_str().unwrap_or("")] *)
Definition to_str_or_empty (s : string) : string :=
  if utf8_valid s then s else "".

(** ** The target allowlist *)

Definition TARGETS : list string :=
  [ "build"; ".gradle"; "bin"; "obj"; "node_modules"; "target";
    "__pycache__"; ".mypy_cache"; ".pytest_cache"; ".ruff_cache"; ".tox" ].

(** [TARGETS.contains(&name)] *)
Definition is_target (name : string) : bool := existsb (String.eqb name) TARGETS.

(** [name.starts_with('.')] *)
Definition starts_with_dot (name : string) : bool :=
  match name with
  | String c _ => Ascii.eqb c "."%char
  | EmptyString => false
  end.

(** ** The filesystem

    A directory tree.  [File None] is a regular file whose metadata cannot
    be read; [Special] is a fifo, socket or device node; [Symlink dest]
    carries the node its target resolves to ([None]: dangling).
    [Dir readable entries]: [readable = false] is a directory whose listing
    ([fs::read_dir]) is refused, e.g. mode 0311; looking up a named child
    with [stat] (which needs only search permission) still works. *)

Inductive node :=
| File (len : option N)
| Special
| Symlink (dest : option node)
| Dir (readable : bool) (entries : list (string * node)).

Section node_ind'.
Variable P : node -> Prop.
Hypothesis HFile : forall l, P (File l).
Hypothesis HSpecial : P Special.
Hypothesis HDangling : P (Symlink None).
Hypothesis HSymlink : forall d, P d -> P (Symlink (Some d)).
Hypothesis HDir : forall r es, Forall (fun e => P (snd e)) es -> P (Dir r es).

Fixpoint node_ind' (n : node) : P n :=
  match n with
  | File l => HFile l
  | Special => HSpecial
  | Symlink None => HDangling
  | Symlink (Some d) => HSymlink d (node_ind' d)
  | Dir r es =>
    HDir r es
      ((fix go (es : list (string * node)) : Forall (fun e => P (snd e)) es :=
          match es with
          | [] => Forall_nil _
          | e :: es' => Forall_cons e (node_ind' (snd e)) (go es')
          end) es)
  end.
End node_ind'.

(** A path is the list of its components. *)
Definition PathBuf := list string.

(** [fs::read_dir]: follows a symbolic link at the path itself. *)
Fixpoint read_dir (n : node) : option (list (string * node)) :=
  match n with
  | Dir true es => Some es
  | Symlink (Some d) => read_dir d
  | _ => None
  end.

(** [Path::is_dir] (follows links) and [Path::is_symlink] (does not). *)
Fixpoint is_dir (n : node) : bool :=
  match n with
  | Dir _ _ => true
  | Symlink (Some d) => is_dir d
  | _ => false
  end.

Definition is_symlink (n : node) : bool :=
  match n with Symlink _ => true | _ => false end.

(** [Path::exists] (follows links). *)
Definition node_exists (n : node) : bool :=
  match n with Symlink None => false | _ => true end.

(** Entries of a directory as seen by a [stat] of [dir/name]: needs no
    listing permission. *)
Fixpoint stat_entries (n : node) : option (list (string * node)) :=
  match n with
  | Dir _ es => Some es
  | Symlink (Some d) => stat_entries d
  | _ => None
  end.

(** [dir.join(name).exists()] *)
Definition join_exists (dir : node) (name : string) : bool :=
  match stat_entries dir with
  | Some es =>
    match find (fun e => String.eqb (fst e) name) es with
    | Some (_, ch) => node_exists ch
    | None => false
    end
  | None => false
  end.

(** [DirEntry::file_type] does not follow links. *)
Definition ft_is_dir (n : node) : bool :=
  match n with Dir _ _ => true | _ => false end.
Definition ft_is_file (n : node) : bool :=
  match n with File _ => true | _ => false end.
Definition ft_is_symlink (n : node) : bool :=
  match n with Symlink _ => true | _ => false end.

(** [entry.metadata().map(|m| m.len()).unwrap_or(0)] on a regular file. *)
Definition metadata_len (n : node) : N :=
  match n with File (Some l) => l | _ => 0%N end.

(** [u64] addition as compiled in a release build (wrapping). *)
Definition u64_add (a b : N) : N := ((a + b) mod 2 ^ 64)%N.

Fixpoint node_size (n : node) : nat :=
  match n with
  | Dir _ es => S (list_sum (map (fun e => node_size (snd e)) es))
  | Symlink (Some d) => S (node_size d)
  | _ => 1
  end.

(** ** RepoDiscovery: [collect_repos] and [find_repos] *)

(** [collect_repos]; [repos.push] appends.  [fs::read_dir] on a link is
    the listing of its destination, and the two checks before it give the
    same answers on the destination, hence the [Symlink] branch. *)
Fixpoint collect_repos (dir : node) (p : PathBuf) (max_depth depth : nat)
         (repos : list PathBuf) {struct dir} : list PathBuf :=
  if Nat.ltb max_depth depth then repos
  else if join_exists dir ".git" then repos ++ [p]
  else
    match dir with
    | Dir true es =>
      fold_left
        (fun acc e =>
           let '(nm, ch) := e in
           if is_dir ch && negb (is_symlink ch)
           then collect_repos ch (p ++ [nm]) max_depth (S depth) acc
           else acc)
        es repos
    | Symlink (Some d) => collect_repos d p max_depth depth repos
    | _ => repos
    end.

(** [Ord for Path]: component-wise, each component compared bytewise. *)
Fixpoint path_cmp (p q : PathBuf) : comparison :=
  match p, q with
  | [], [] => Eq
  | [], _ :: _ => Lt
  | _ :: _, [] => Gt
  | a :: p', b :: q' =>
    match String.compare a b with
    | Eq => path_cmp p' q'
    | c => c
    end
  end.

Definition path_le (p q : PathBuf) : Prop := path_cmp p q <> Gt.

Definition path_leb (p q : PathBuf) : bool :=
  match path_cmp p q with Gt => false | _ => true end.

Fixpoint insert_path (p : PathBuf) (l : list PathBuf) : list PathBuf :=
  match l with
  | [] => [p]
  | q :: l' => if path_leb p q then p :: q :: l' else q :: insert_path p l'
  end.

(** [repos.sort()]: paths are totally ordered and equal paths are identical,
    so every sorting algorithm returns the same list; insertion sort. *)
Definition sort_paths (l : list PathBuf) : list PathBuf :=
  fold_right insert_path [] l.

Definition find_repos (base : PathBuf) (n : node) (max_depth : nat) : list PathBuf :=
  sort_paths (collect_repos n base max_depth 0 []).

(** ** SizeAccountant: [dir_size]

    [stack] is the [Vec] with its last element first: [push] is [cons],
    [pop] takes the head. *)
Definition dir_size_entry (acc : list node * N) (e : string * node) : list node * N :=
  let '(stack, total) := acc in
  let '(_, ch) := e in
  if ft_is_dir ch && negb (ft_is_symlink ch) then (ch :: stack, total)
  else if ft_is_file ch then (stack, u64_add total (metadata_len ch))
  else (stack, total).

Fixpoint dir_size_loop (fuel : nat) (stack : list node) (total : N) : N :=
  match fuel with
  | O => total
  | S fuel' =>
    match stack with
    | [] => total
    | dir :: stack' =>
      match read_dir dir with
      | None => dir_size_loop fuel' stack' total
      | Some es =>
        let '(st, tot) := fold_left dir_size_entry es (stack', total) in
        dir_size_loop fuel' st tot
      end
    end
  end.

(** The loop pops every node of the tree at most once, so [node_size] + 1
    rounds always suffice (lemma [dir_size_loop_sum] below). *)
Definition dir_size (n : node) : N := dir_size_loop (S (node_size n)) [n] 0%N.

(** ** Results, paths and candidates *)

Inductive result (A E : Type) := Ok (a : A) | Err (e : E).
Arguments Ok {A E} a.
Arguments Err {A E} e.

(** [struct Purge] *)
Record Purge := mkPurge { path : PathBuf; size : N }.

(** [Path::strip_prefix] *)
Fixpoint strip_prefix (base p : PathBuf) : option PathBuf :=
  match base, p with
  | [], _ => Some p
  | b :: base', c :: p' => if String.eqb b c then strip_prefix base' p' else None
  | _ :: _, [] => None
  end.

(** [rel.display()] of a relative path. *)
Definition display (rel : PathBuf) : string :=
  to_string_lossy (String.concat "/" rel).

(** [Path::new(dir).join(name)] *)
Definition join (dir : PathBuf) (name : string) : PathBuf := dir ++ [name].

(** Looking a path up from the filesystem root: intermediate links are
    resolved, the last component is not ([symlink_metadata]). *)
Fixpoint lookup (w : node) (p : PathBuf) : option node :=
  match p with
  | [] => Some w
  | c :: p' =>
    match stat_entries w with
    | Some es =>
      match find (fun e => String.eqb (fst e) c) es with
      | Some (_, ch) => lookup ch p'
      | None => None
      end
    | None => None
    end
  end.

Section Program.
(** The git library ([git2]) and the rest of the operating system are
    external: their answers are parameters.  The on-disk state of a
    repository that git reads is part of the [Repository] value. *)
Context {Repository git_error io_error : Type}.
(** [Repository::open] *)
Variable repository_open : PathBuf -> result Repository git_error.
(** [Repository::is_path_ignored] *)
Variable is_path_ignored : Repository -> string -> result bool git_error.
(** [PathBuf::canonicalize] *)
Variable canonicalize : node -> PathBuf -> option PathBuf.
(** [fs::remove_dir_all]: the filesystem afterwards (a failure may have
    removed part of the tree) and the outcome. *)
Variable remove_dir_all : node -> PathBuf -> node * result unit io_error.
(** [str::trim] *)
Variable trim : string -> string.

(** [repo.is_path_ignored(..).unwrap_or(false)] *)
Definition ignored_or_false (r : result bool git_error) : bool :=
  match r with Ok b => b | Err _ => false end.

(** [scan_dir]; [out.push] appends. *)
Fixpoint scan_dir (repo : Repository) (repo_root dir : PathBuf) (n : node)
         (out : list Purge) {struct n} : list Purge :=
  match n with
  | Dir true es =>
    fold_left
      (fun out e =>
         let '(nm, ch) := e in
         let p := join dir nm in
         if negb (is_dir ch) || is_symlink ch then out
         else
           let name := to_str_or_empty nm in
           if is_target name then
             let rel := match strip_prefix repo_root p with
                        | Some r => r | None => p end in
             let check := String.append (display rel) "/" in
             if ignored_or_false (is_path_ignored repo check)
             then out ++ [mkPurge p (dir_size ch)]
             else out
           else if starts_with_dot name then out
           else scan_dir repo repo_root p ch out)
      es out
  | Symlink (Some d) => scan_dir repo repo_root dir d out
  | _ => out
  end.

Definition find_purgeable (repo_path : PathBuf) (n : node) : list Purge :=
  match repository_open repo_path with
  | Err _ => []
  | Ok repo => scan_dir repo repo_path repo_path n []
  end.

(** The deletion loop of [run].  The state is the filesystem, [freed]
    ([u64]), [errors] and the trace of [remove_dir_all] calls with their
    outcome.  [errors] is a [usize] incremented at most once per element
    of a [Vec], so it cannot wrap; it is a [nat]. *)
Definition purge_one (st : node * N * nat * list (PathBuf * bool)) (p : Purge)
  : node * N * nat * list (PathBuf * bool) :=
  let '(w, freed, errors, trace) := st in
  let '(w', r) := remove_dir_all w (path p) in
  match r with
  | Ok _ => (w', u64_add freed (size p), errors, trace ++ [(path p, true)])
  | Err _ => (w', freed, S errors, trace ++ [(path p, false)])
  end.

Definition purge_all (w : node) (all_purges : list (PathBuf * list Purge))
  : node * N * nat * list (PathBuf * bool) :=
  fold_left (fun st rp => fold_left purge_one (snd rp) st)
            all_purges (w, 0%N, 0, []).

Record Args := mkArgs { args_path : PathBuf; depth : nat; dry_run : bool; yes : bool }.

Inductive run_error :=
| CannotAccess (p : PathBuf)
| NoRepos (base : PathBuf)
| ReadInputFailed
| RemoveFailed (errors : nat).

Definition is_yes (answer : string) : bool :=
  existsb (String.eqb (trim answer)) ["y"; "Y"; "yes"].

Definition find_purgeable_at (w : node) (r : PathBuf) : list Purge :=
  match lookup w r with Some n => find_purgeable r n | None => [] end.

(** [run]: the outcome, the filesystem afterwards and the
    [remove_dir_all] trace.  [stdin] is the result of [read_line];
    repositories are scanned by [par_iter], whose [collect] keeps the
    order of [repos]. *)
Definition run (a : Args) (w : node) (stdin : result string io_error)
  : result unit run_error * node * list (PathBuf * bool) :=
  match canonicalize w (args_path a) with
  | None => (Err (CannotAccess (args_path a)), w, [])
  | Some base =>
    let repos := match lookup w base with
                 | Some n => find_repos base n (depth a)
                 | None => [] end in
    match repos with
    | [] => (Err (NoRepos base), w, [])
    | _ =>
      let all_purges :=
        filter (fun rp => negb (match snd rp with [] => true | _ => false end))
               (map (fun r => (r, find_purgeable_at w r)) repos) in
      match all_purges with
      | [] => (Ok tt, w, [])
      | _ =>
        if dry_run a then (Ok tt, w, [])
        else
          let go :=
            if yes a then Ok true
            else match stdin with
                 | Err _ => Err ReadInputFailed
                 | Ok answer => Ok (is_yes answer)
                 end in
          match go with
          | Err e => (Err e, w, [])
          | Ok false => (Ok tt, w, [])
          | Ok true =>
            let '(w', freed, errors, trace) := purge_all w all_purges in
            (if Nat.ltb 0 errors then Err (RemoveFailed errors) else Ok tt,
             w', trace)
          end
      end
    end
  end.
End Program.

(** ** Relations and reference definitions used to state the properties *)

(** [rel] is where [path.strip_prefix(repo_root).unwrap_or(&path)] leads. *)
Definition rel_of (repo_root p : PathBuf) : PathBuf :=
  match strip_prefix repo_root p with Some r => r | None => p end.

(** The query handed to [is_path_ignored] for the entry at [p]. *)
Definition ignore_query (repo_root p : PathBuf) : string :=
  String.append (display (rel_of repo_root p)) "/".

(** [scanned n pre c ch]: the scanner lists the entry [(c, ch)] in the
    directory reached from [n] through the components [pre], descending
    only into listable, non-link directories that are neither targets nor
    hidden. *)
Inductive scanned : node -> PathBuf -> string -> node -> Prop :=
| scanned_here n es c ch :
    read_dir n = Some es -> In (c, ch) es -> scanned n [] c ch
| scanned_down n es d dn pre c ch :
    read_dir n = Some es -> In (d, dn) es ->
    is_dir dn = true -> is_symlink dn = false ->
    is_target (to_str_or_empty d) = false ->
    starts_with_dot (to_str_or_empty d) = false ->
    scanned dn pre c ch -> scanned n (d :: pre) c ch.

(** [discovered max_depth depth n rel]: discovery, started at depth
    [depth] on [n], records the directory at [rel]. *)
Inductive discovered (max_depth : nat) : nat -> node -> PathBuf -> Prop :=
| disc_here depth n :
    depth <= max_depth -> join_exists n ".git" = true ->
    discovered max_depth depth n []
| disc_down depth n es c ch rel :
    depth <= max_depth -> join_exists n ".git" = false ->
    read_dir n = Some es -> In (c, ch) es ->
    is_dir ch = true -> is_symlink ch = false ->
    discovered max_depth (S depth) ch rel ->
    discovered max_depth depth n (c :: rel).

(** [reach n rel m]: walking the listings from [n] along [rel] ends at [m]. *)
Inductive reach : node -> PathBuf -> node -> Prop :=
| reach_nil n : reach n [] n
| reach_cons n es c ch rel m :
    read_dir n = Some es -> In (c, ch) es -> reach ch rel m ->
    reach n (c :: rel) m.

Definition strict_prefix (p q : PathBuf) : Prop :=
  exists s, s <> [] /\ q = p ++ s.

Definition prefix_free (l : list PathBuf) : Prop :=
  forall p q, In p l -> In q l -> ~ strict_prefix p q.

(** Names in a directory are unique, as on every real filesystem. *)
Fixpoint nodup_names (l : list string) : bool :=
  match l with
  | [] => true
  | x :: l' => negb (existsb (String.eqb x) l') && nodup_names l'
  end.

Fixpoint well_formed (n : node) : bool :=
  match n with
  | Dir _ es =>
    nodup_names (map fst es)
    && forallb (fun e => let '(_, c) := e in well_formed c) es
  | Symlink (Some d) => well_formed d
  | _ => true
  end.

(** [retarget n n']: [n'] is [n] with the destination of any symbolic
    link (at any depth) replaced by another existing destination. *)
Inductive retarget : node -> node -> Prop :=
| rt_file l : retarget (File l) (File l)
| rt_special : retarget Special Special
| rt_dangling : retarget (Symlink None) (Symlink None)
| rt_link d d' : retarget (Symlink (Some d)) (Symlink (Some d'))
| rt_dir r es es' :
    Forall2 (fun e e' => fst e = fst e' /\ retarget (snd e) (snd e')) es es' ->
    retarget (Dir r es) (Dir r es').

(** The SizeAccountant contract as the spec words it: bytes of the regular
    files below [n], links excluded (also a link given as the argument),
    an unlistable directory and unreadable metadata counting 0. *)
Fixpoint spec_size (n : node) : N :=
  match n with
  | Dir true es =>
    fold_right
      (fun e acc =>
         let '(_, c) := e in
         ((match c with
           | File (Some l) => l
           | Dir _ _ => spec_size c
           | _ => 0
           end) + acc)%N)
      0%N es
  | _ => 0%N
  end.

(** What one listing adds to the running total of [dir_size], and the
    directories it pushes. *)
Definition file_bytes (es : list (string * node)) : N :=
  fold_right (fun e acc => ((if ft_is_file (snd e) then metadata_len (snd e) else 0) + acc)%N)
             0%N es.

Definition pushed (es : list (string * node)) : list node :=
  filter (fun ch => ft_is_dir ch && negb (ft_is_symlink ch)) (map snd es).

(** Bytes [dir_size] credits to a node it pops from the stack. *)
Definition listed_bytes (n : node) : N :=
  match read_dir n with Some es => spec_size (Dir true es) | None => 0%N end.

Definition stack_weight (st : list node) : nat := list_sum (map node_size st).

Definition sum_sizes (l : list Purge) : N := fold_right (fun p acc => (size p + acc)%N) 0%N l.

Definition stack_bytes (st : list node) : N :=
  fold_right (fun d acc => (listed_bytes d + acc)%N) 0%N st.

(** Sum of the sizes of the candidates whose deletion succeeded, and
    the number of failures, read off the outcomes [bs]. *)
Definition succ_sizes (ps : list Purge) (bs : list bool) : N :=
  fold_right (fun (pb : Purge * bool) acc => ((if snd pb then size (fst pb) else 0) + acc)%N)
             0%N (combine ps bs).

Definition count_false (bs : list bool) : nat :=
  List.length (filter negb bs).

(** [scan_cand dir n x]: [x] is the candidate for an entry the scanner
    lists below [n] (reached at [dir]), a non-link directory whose basename
    is a target and whose query answered "ignored". *)
Definition scan_cand {Repository git_error : Type}
  (is_path_ignored : Repository -> string -> result bool git_error)
  (repo : Repository) (repo_root dir : PathBuf) (n : node) (x : Purge) : Prop :=
  exists pre c ch,
    x = mkPurge (dir ++ pre ++ [c]) (dir_size ch) /\ scanned n pre c ch /\
    is_dir ch = true /\ is_symlink ch = false /\
    is_target (to_str_or_empty c) = true /\
    ignored_or_false (is_path_ignored repo (ignore_query repo_root (dir ++ pre ++ [c]))) = true.

(** The same, for the candidates contributed by one entry of a listing. *)
Definition entry_cand {Repository git_error : Type}
  (is_path_ignored : Repository -> string -> result bool git_error)
  (repo : Repository) (repo_root dir : PathBuf) (e : string * node) (x : Purge) : Prop :=
  let '(nm, ch) := e in
  is_dir ch = true /\ is_symlink ch = false /\
  ((is_target (to_str_or_empty nm) = true /\
    ignored_or_false (is_path_ignored repo (ignore_query repo_root (dir ++ [nm]))) = true /\
    x = mkPurge (dir ++ [nm]) (dir_size ch)) \/
   (is_target (to_str_or_empty nm) = false /\
    starts_with_dot (to_str_or_empty nm) = false /\
    scan_cand is_path_ignored repo repo_root (dir ++ [nm]) ch x)).

(** ** Concrete trees *)

Definition ex_world : node :=
  Dir true [("proj", Dir true [(".git", Dir true []);
                               ("build", Dir true [("out.jar", File (Some 4%N))])])].

(** Two repositories below the scanned root, with three build directories,
    two of them named [build]. *)
Definition ex_two_repos : node :=
  Dir true [("a", Dir true [(".git", Dir true []); ("build", Dir true []);
                            ("target", Dir true [("t.o", File (Some 2%N))])]);
            ("b", Dir true [(".git", Dir true []); ("build", Dir true [])])].

Definition ex_size_tree : node :=
  Dir true [("a.txt", File (Some 5%N)); ("b", File None); ("fifo", Special);
            ("ln", Symlink (Some (File (Some 100%N))));
            ("locked", Dir false [("x", File (Some 7%N))]);
            ("sub", Dir true [("b.txt", File (Some 6%N))])].

(** A basename whose first byte is '.' followed by the byte 0xFF, which is
    not valid UTF-8. *)
Definition bad_hidden : string := String "."%char (String (ascii_of_nat 255) EmptyString).

(** A basename that is not valid UTF-8 and does not start with '.'. *)
Definition bad_plain : string := String (ascii_of_nat 255) "pkg".

Definition ex_scan_tree : node :=
  Dir true [(".git", Dir true [("build", Dir true [])]);
            (bad_hidden, Dir true [("build", Dir true [("x", File (Some 3%N))])]);
            (bad_plain, Dir true [("node_modules", Dir true [])])].

(** ** Tests on concrete trees *)

Example dir_size_test :
  dir_size (Dir true [("a.txt", File (Some 5%N));
                      ("sub", Dir true [("b.txt", File (Some 6%N))])]) = 11%N.
Proof. reflexivity. Qed.

Example utf8_euro : utf8_valid (String (ascii_of_nat 226) (String (ascii_of_nat 130)
                                 (String (ascii_of_nat 172) EmptyString))) = true.
Proof. reflexivity. Qed.

Example utf8_truncated :
  to_string_lossy (String (ascii_of_nat 226) (String (ascii_of_nat 130) "a")) =
  String.append replacement "a".
Proof. reflexivity. Qed.

Example utf8_surrogate :
  utf8_valid (String (ascii_of_nat 237) (String (ascii_of_nat 160)
               (String (ascii_of_nat 128) EmptyString))) = false.
Proof. reflexivity. Qed.

Example find_repos_test :
  find_repos ["home"]
    (Dir true [("zeta", Dir true [(".git", Dir true [])]);
               ("alpha", Dir true [("x", Dir true [(".git", Dir true [])])]);
               ("link", Symlink (Some (Dir true [(".git", Dir true [])])))]) 3
  = [["home"; "alpha"; "x"]; ["home"; "zeta"]].
Proof. reflexivity. Qed.

Example scan_test :
  find_purgeable (fun _ => @Ok unit unit tt)
    (fun _ q => if String.eqb q "build/" then Ok true
                else if String.eqb q "web/node_modules/" then Err tt else Ok false)
    ["r"]
    (Dir true [(".git", Dir true [("build", Dir true [])]);
               ("build", Dir true [("target", Dir true []); ("a", File (Some 3%N))]);
               ("web", Dir true [("node_modules", Dir true [])])])
  = [mkPurge ["r"; "build"] 3%N].
Proof. reflexivity. Qed.

(** Discovery inputs: a directory whose listing is refused (mode 0311)
    but whose [.git] can still be stat'ed; a worktree whose [.git] is a
    file; a tree with links whose destination can be changed. *)
Definition ex_unlistable : node :=
  Dir false [(".git", Dir true []); ("sub", Dir true [(".git", Dir true [])])].

Definition ex_gitfile : node := Dir true [(".git", File (Some 10%N))].

Definition ex_repos_tree : node :=
  Dir true [("zeta", Dir true [(".git", Dir true [])]);
            ("alpha", Dir true [("x", Dir true [(".git", Dir true [])])]);
            ("link", Symlink (Some (Dir true [(".git", Dir true [])])))].

Definition ex_linked (target : node) : node :=
  Dir true [("a", Dir true [(".git", Dir true []); ("sub", Symlink (Some target));
                            ("build", Dir true [("out", File (Some 4%N));
                                                ("cache", Symlink (Some target))])]);
            ("lnk", Symlink (Some target))].

(** ** Report: [human_size] and the listing printed by [run] *)

(** [Display] of an unsigned integer: decimal digits without leading
    zeros ("0" for zero). *)
Definition dec (n : N) : string := NilZero.string_of_uint (N.to_uint n).

Definition KIB : N := 1024.
Definition MIB : N := 1024 * KIB.
Definition GIB : N := 1024 * MIB.

(** [bytes as f64]: rounding to nearest, ties to even, to 53 significant
    bits; the result is an integer. *)
Definition u64_to_f64 (b : N) : N :=
  let k := N.size b in
  if (k <=? 53)%N then b
  else
    let s := (k - 53)%N in
    let q := (b / 2 ^ s)%N in
    let r := (b mod 2 ^ s)%N in
    let h := (2 ^ (s - 1))%N in
    if (h <? r)%N || ((r =? h)%N && N.odd q) then ((q + 1) * 2 ^ s)%N
    else (q * 2 ^ s)%N.

(** [num / den] rounded to an integer, ties to even. *)
Definition round_half_even (num den : N) : N :=
  let q := (num / den)%N in
  let r := (num mod den)%N in
  if (den <? 2 * r)%N then (q + 1)%N
  else if (2 * r <? den)%N then q
  else if N.even q then q else (q + 1)%N.

(** [format!("{:.0}", x)] and [format!("{:.1}", x)] for the [f64] value
    [x = num / den] (an exact quotient here: [den] is a power of two);
    [core::fmt] rounds the exact decimal expansion to the precision, ties
    to even. *)
Definition fmt_prec0 (num den : N) : string := dec (round_half_even num den).

Definition fmt_prec1 (num den : N) : string :=
  let t := round_half_even (10 * num) den in
  String.append (dec (t / 10)) (String.append "." (dec (t mod 10))).

Definition human_size (bytes : N) : string :=
  if (GIB <=? bytes)%N then String.append (fmt_prec1 (u64_to_f64 bytes) GIB) " GiB"
  else if (MIB <=? bytes)%N then String.append (fmt_prec1 (u64_to_f64 bytes) MIB) " MiB"
  else if (KIB <=? bytes)%N then String.append (fmt_prec0 (u64_to_f64 bytes) KIB) " KiB"
  else String.append (dec bytes) " B".

Definition esc : string := String (ascii_of_nat 27) EmptyString.
Definition newline : string := String (ascii_of_nat 10) EmptyString.

(** [println!("\x1b[1m{}\x1b[0m", rel.display())] *)
Definition repo_line (rel : string) : string :=
  String.append esc (String.append "[1m" (String.append rel (String.append esc "[0m"))).

(** [println!("  \x1b[31m{}\x1b[0m  {}", dir_rel.display(), human_size(p.size))] *)
Definition cand_line (rel sz : string) : string :=
  String.append "  " (String.append esc (String.append "[31m"
    (String.append rel (String.append esc (String.append "[0m" (String.append "  " sz)))))).

(** [println!("\n{total_count} dirs, {} reclaimable", human_size(total_size))] *)
Definition summary_line (count : nat) (total : N) : string :=
  String.append newline (String.append (dec (N.of_nat count))
    (String.append " dirs, " (String.append (human_size total) " reclaimable"))).

(** The report loop of [run]: the lines printed, [total_size] ([u64],
    [+=]) and [total_count]. *)
Definition report_purge (repo : PathBuf) (st : list string * N * nat) (p : Purge)
  : list string * N * nat :=
  let '(lines, total_size, total_count) := st in
  let dir_rel := match strip_prefix repo (path p) with Some r => r | None => path p end in
  (lines ++ [cand_line (display dir_rel) (human_size (size p))],
   u64_add total_size (size p), S total_count).

Definition report_repo (base : PathBuf) (st : list string * N * nat)
           (rp : PathBuf * list Purge) : list string * N * nat :=
  let '(repo, purges) := rp in
  let '(lines, total_size, total_count) := st in
  let rel := match strip_prefix base repo with Some r => r | None => repo end in
  fold_left (report_purge repo) purges
            (lines ++ [repo_line (display rel)], total_size, total_count).

Definition report (base : PathBuf) (all_purges : list (PathBuf * list Purge))
  : list string * N * nat :=
  let '(lines, total_size, total_count) :=
    fold_left (report_repo base) all_purges ([], 0%N, 0) in
  (lines ++ [summary_line total_count total_size], total_size, total_count).

(** The lines [report] prints for one candidate and for one repository. *)
Definition purge_line (repo : PathBuf) (p : Purge) : string :=
  cand_line (display (rel_of repo (path p))) (human_size (size p)).

Definition repo_block (base : PathBuf) (rp : PathBuf * list Purge) : list string :=
  repo_line (display (rel_of base (fst rp))) :: map (purge_line (fst rp)) (snd rp).

(** The filter of [run] that keeps repositories with candidates. *)
Definition nonempty {A B : Type} (rp : A * list B) : bool :=
  negb (match snd rp with [] => true | _ => false end).

Example human_size_test :
  human_size 500 = "500 B" /\ human_size 2048 = "2 KiB" /\
  human_size (5 * 1024 * 1024) = "5.0 MiB" /\
  human_size (3 * 1024 * 1024 * 1024) = "3.0 GiB".
Proof. vm_compute. repeat split. Qed.

(** * Proofs *)

(** ** SizeAccountant *)

Module SizeFacts.

Lemma node_size_pos : forall n, 1 <= node_size n.
Proof. destruct n as [| | [] |]; simpl; lia. Qed.

Lemma read_dir_weight : forall d es,
  read_dir d = Some es ->
  list_sum (map (fun e => node_size (snd e)) es) < node_size d.
Proof.
  induction d as [l | | | d IH | r es0 _] using node_ind'; simpl;
    intros es H; try discriminate.
  - specialize (IH es H). lia.
  - destruct r; inversion H; subst. lia.
Qed.

Lemma weight_pushed : forall es,
  stack_weight (pushed es) <= list_sum (map (fun e => node_size (snd e)) es).
Proof.
  unfold stack_weight, pushed.
  induction es as [| [nm ch] es IH]; simpl; [lia |].
  destruct (ft_is_dir ch && negb (ft_is_symlink ch)); simpl; lia.
Qed.

Lemma stack_weight_app : forall a b,
  stack_weight (a ++ b) = stack_weight a + stack_weight b.
Proof.
  intros a b. unfold stack_weight. rewrite map_app, list_sum_app. reflexivity.
Qed.

Lemma stack_weight_rev : forall a, stack_weight (rev a) = stack_weight a.
Proof.
  induction a as [| x a IH]; simpl; [reflexivity |].
  rewrite stack_weight_app, IH. unfold stack_weight; simpl. lia.
Qed.

Lemma stack_bytes_app : forall a b,
  stack_bytes (a ++ b) = (stack_bytes a + stack_bytes b)%N.
Proof. induction a as [| x a IH]; intros b; simpl; [reflexivity | rewrite IH; lia]. Qed.

Lemma stack_bytes_rev : forall a, stack_bytes (rev a) = stack_bytes a.
Proof.
  induction a as [| x a IH]; simpl; [reflexivity |].
  rewrite stack_bytes_app, IH. simpl. lia.
Qed.

Lemma fold_dir_size_entry : forall es st t,
  (t < 2 ^ 64)%N ->
  fold_left dir_size_entry es (st, t) =
  (rev (pushed es) ++ st, ((t + file_bytes es) mod 2 ^ 64)%N).
Proof.
  induction es as [| [nm ch] es IH]; intros st t Ht; simpl.
  - rewrite N.add_0_r, N.mod_small by exact Ht. reflexivity.
  - unfold pushed in *. simpl.
    destruct ch as [[l|] | | d | r es']; simpl.
    + rewrite IH by (apply N.mod_upper_bound; discriminate).
      unfold u64_add. rewrite N.Div0.add_mod_idemp_l.
      f_equal. f_equal. lia.
    + rewrite IH by (apply N.mod_upper_bound; discriminate).
      unfold u64_add. rewrite N.Div0.add_mod_idemp_l.
      f_equal. f_equal. lia.
    + rewrite IH by exact Ht. reflexivity.
    + rewrite IH by exact Ht. reflexivity.
    + rewrite IH by exact Ht. simpl. rewrite <- app_assoc. reflexivity.
Qed.

Lemma listed_bytes_dir : forall r es,
  listed_bytes (Dir r es) = spec_size (Dir r es).
Proof. intros [] es; reflexivity. Qed.

Lemma spec_size_split : forall es,
  spec_size (Dir true es) = (file_bytes es + stack_bytes (pushed es))%N.
Proof.
  induction es as [| [nm ch] es IH]; [reflexivity |].
  change (spec_size (Dir true ((nm, ch) :: es)))
    with (((match ch with
            | File (Some l) => l
            | Dir _ _ => spec_size ch
            | _ => 0
            end) + spec_size (Dir true es))%N).
  rewrite IH. unfold pushed, file_bytes in *. simpl.
  destruct ch as [[l|] | | d | r es']; simpl.
  all: try lia.
  destruct r; unfold listed_bytes; simpl; lia.
Qed.

Lemma dir_size_loop_sum : forall fuel st t,
  stack_weight st <= fuel -> (t < 2 ^ 64)%N ->
  dir_size_loop fuel st t = ((t + stack_bytes st) mod 2 ^ 64)%N.
Proof.
  induction fuel as [| fuel IH]; intros st t Hw Ht.
  - destruct st as [| d st].
    + simpl. rewrite N.add_0_r, N.mod_small; auto.
    + unfold stack_weight in Hw; simpl in Hw. pose proof (node_size_pos d). lia.
  - destruct st as [| d st].
    + simpl. rewrite N.add_0_r, N.mod_small; auto.
    + unfold stack_weight in Hw; simpl in Hw. simpl.
      unfold listed_bytes at 1.
      destruct (read_dir d) as [es |] eqn:Hrd.
      * rewrite fold_dir_size_entry by exact Ht.
        pose proof (read_dir_weight d es Hrd).
        pose proof (weight_pushed es).
        rewrite IH.
        -- rewrite N.Div0.add_mod_idemp_l.
           rewrite stack_bytes_app, stack_bytes_rev, spec_size_split.
           f_equal. lia.
        -- rewrite stack_weight_app, stack_weight_rev. unfold stack_weight at 2. lia.
        -- apply N.mod_upper_bound. discriminate.
      * pose proof (node_size_pos d).
        rewrite IH; [f_equal; lia | unfold stack_weight; lia | exact Ht].
Qed.

Lemma dir_size_listed : forall n, dir_size n = (listed_bytes n mod 2 ^ 64)%N.
Proof.
  intros n. unfold dir_size.
  rewrite dir_size_loop_sum.
  - simpl. f_equal. lia.
  - unfold stack_weight. simpl. lia.
  - reflexivity.
Qed.

Lemma listed_bytes_not_link : forall n,
  is_symlink n = false -> listed_bytes n = spec_size n.
Proof.
  destruct n as [l | | d | r es]; simpl; intros H; try discriminate; try reflexivity.
  apply listed_bytes_dir.
Qed.

Lemma dir_size_spec_mod : forall n,
  is_symlink n = false -> dir_size n = (spec_size n mod 2 ^ 64)%N.
Proof.
  intros n H. rewrite dir_size_listed, listed_bytes_not_link by exact H. reflexivity.
Qed.

End SizeFacts.

(** ** PurgeExecutor *)

Module PurgeFacts.

Lemma combine_app' {A B} : forall (l1 l2 : list A) (m1 m2 : list B),
  List.length l1 = List.length m1 -> combine (l1 ++ l2) (m1 ++ m2) = combine l1 m1 ++ combine l2 m2.
Proof.
  induction l1 as [| a l1 IH]; intros l2 [| b m1] m2 H; simpl in *; try discriminate;
    [reflexivity | f_equal; apply IH; lia].
Qed.

Lemma succ_sizes_app : forall ps qs bs cs,
  List.length ps = List.length bs ->
  succ_sizes (ps ++ qs) (bs ++ cs) = (succ_sizes ps bs + succ_sizes qs cs)%N.
Proof.
  intros ps qs bs cs H. unfold succ_sizes.
  rewrite combine_app' by exact H. rewrite fold_right_app.
  generalize (combine ps bs) as l.
  induction l as [| x l IHl]; simpl; [lia | rewrite IHl; lia].
Qed.

Lemma count_false_app : forall bs cs,
  count_false (bs ++ cs) = count_false bs + count_false cs.
Proof. intros. unfold count_false. rewrite filter_app, length_app. reflexivity. Qed.

Section Executor.
Context {io_error : Type}.
Variable remove_dir_all : node -> PathBuf -> node * result unit io_error.

Lemma purge_one_fold : forall ps w f e tr,
  (f < 2 ^ 64)%N ->
  exists w' tr',
    fold_left (purge_one remove_dir_all) ps (w, f, e, tr) =
    (w', ((f + succ_sizes ps (map snd tr')) mod 2 ^ 64)%N,
     e + count_false (map snd tr'), tr ++ tr') /\
    map fst tr' = map path ps.
Proof.
  induction ps as [| p ps IH]; intros w f e tr Hf; simpl.
  - exists w, (@nil (PathBuf * bool)). split; [| reflexivity].
    unfold succ_sizes, count_false. simpl.
    rewrite app_nil_r, N.add_0_r, N.mod_small, Nat.add_0_r by exact Hf. reflexivity.
  - destruct (remove_dir_all w (path p)) as [w1 [u | err]] eqn:Hr.
    + replace (purge_one remove_dir_all (w, f, e, tr) p)
        with (w1, u64_add f (size p), e, tr ++ [(path p, true)])
        by (unfold purge_one; rewrite Hr; reflexivity).
      assert (Hf' : (u64_add f (size p) < 2 ^ 64)%N)
        by (apply N.mod_upper_bound; discriminate).
      destruct (IH w1 (u64_add f (size p)) e (tr ++ [(path p, true)]) Hf')
        as (w' & tr' & Heq & Hmap).
      exists w', ((path p, true) :: tr'). rewrite Heq. split; [| simpl; f_equal; exact Hmap].
      unfold u64_add, succ_sizes, count_false. simpl.
      rewrite N.Div0.add_mod_idemp_l, <- app_assoc. simpl.
      rewrite N.add_assoc. reflexivity.
    + replace (purge_one remove_dir_all (w, f, e, tr) p)
        with (w1, f, S e, tr ++ [(path p, false)])
        by (unfold purge_one; rewrite Hr; reflexivity).
      destruct (IH w1 f (S e) (tr ++ [(path p, false)]) Hf)
        as (w' & tr' & Heq & Hmap).
      exists w', ((path p, false) :: tr'). rewrite Heq. split; [| simpl; f_equal; exact Hmap].
      unfold succ_sizes, count_false. simpl. rewrite <- app_assoc. simpl.
      rewrite ?N.add_0_l, ?Nat.add_succ_r. reflexivity.
Qed.

Lemma purge_all_fold : forall (all : list (PathBuf * list Purge)) w f e tr,
  (f < 2 ^ 64)%N ->
  exists w' tr',
    fold_left (fun st rp => fold_left (purge_one remove_dir_all) (snd rp) st)
              all (w, f, e, tr) =
    (w', ((f + succ_sizes (List.concat (map snd all)) (map snd tr')) mod 2 ^ 64)%N,
     e + count_false (map snd tr'), tr ++ tr') /\
    map fst tr' = map path (List.concat (map snd all)).
Proof.
  induction all as [| [r ps] all IH]; intros w f e tr Hf; simpl.
  - exists w, (@nil (PathBuf * bool)). split; [| reflexivity].
    unfold succ_sizes, count_false. simpl.
    rewrite app_nil_r, N.add_0_r, N.mod_small, Nat.add_0_r by exact Hf. reflexivity.
  - destruct (purge_one_fold ps w f e tr Hf) as (w1 & tr1 & Heq1 & Hmap1).
    rewrite Heq1.
    destruct (IH w1 ((f + succ_sizes ps (map snd tr1)) mod 2 ^ 64)%N
                 (e + count_false (map snd tr1)) (tr ++ tr1)
                 ltac:(apply N.mod_upper_bound; discriminate))
      as (w' & tr' & Heq & Hmap).
    exists w', (tr1 ++ tr'). rewrite Heq. split.
    + assert (Hlen : List.length ps = List.length (map snd tr1))
        by (rewrite length_map, <- (length_map fst tr1), Hmap1, length_map; reflexivity).
      rewrite map_app, succ_sizes_app, count_false_app by exact Hlen.
      rewrite <- app_assoc, N.Div0.add_mod_idemp_l, N.add_assoc, Nat.add_assoc.
      reflexivity.
    + rewrite map_app, Hmap1, Hmap, map_app. reflexivity.
Qed.
End Executor.

End PurgeFacts.

(** ** Claims about the executor, the size accountant and dry runs *)

(** C4: when the dry-run flag is set, [run] returns before the deletion
    loop: whatever the filesystem and the answers of the environment, the
    filesystem afterwards is the one before and [remove_dir_all] is never
    called (the trace of calls is empty).  The run succeeds ([Ok]) unless it
    stopped before reporting anything: the path could not be canonicalized,
    or no repository was found below it. *)
Theorem run_dry_run_preserves_fs :
  forall (Repository git_error io_error : Type)
         (repository_open : PathBuf -> result Repository git_error)
         (is_path_ignored : Repository -> string -> result bool git_error)
         (canonicalize : node -> PathBuf -> option PathBuf)
         (remove_dir_all : node -> PathBuf -> node * result unit io_error)
         (trim : string -> string) (a : Args) (w : node)
         (stdin : result string io_error),
  dry_run a = true ->
  snd (fst (run repository_open is_path_ignored canonicalize remove_dir_all trim a w stdin)) = w /\
  snd (run repository_open is_path_ignored canonicalize remove_dir_all trim a w stdin) = [] /\
  (fst (fst (run repository_open is_path_ignored canonicalize remove_dir_all trim a w stdin))
     = Ok tt \/
   (canonicalize w (args_path a) = None /\
    fst (fst (run repository_open is_path_ignored canonicalize remove_dir_all trim a w stdin))
      = Err (CannotAccess (args_path a))) \/
   (exists base, canonicalize w (args_path a) = Some base /\
    match lookup w base with Some n => find_repos base n (depth a) | None => [] end = [] /\
    fst (fst (run repository_open is_path_ignored canonicalize remove_dir_all trim a w stdin))
      = Err (NoRepos base))).
Proof.
  intros Repository git_error io_error repository_open is_path_ignored canonicalize
         remove_dir_all trim a w stdin Hdry.
  unfold run. rewrite Hdry.
  destruct (canonicalize w (args_path a)) as [base |] eqn:Hc.
  - destruct (match lookup w base with Some n => find_repos base n (depth a) | None => [] end)
      as [| r repos] eqn:Hr.
    + split; [reflexivity |]. split; [reflexivity |].
      right; right. exists base. split; [reflexivity |]. split; [exact Hr | reflexivity].
    + destruct (filter _ _) as [| rp rest];
        (split; [reflexivity |]); (split; [reflexivity |]); left; reflexivity.
  - split; [reflexivity |]. split; [reflexivity |]. right; left. split; reflexivity.
Qed.

Lemma run_dry_run_preserves_fs_witness :
  dry_run (mkArgs ["proj"] 3 true false) = true /\
  snd (fst (run (fun _ => @Ok unit unit tt) (fun _ _ => Ok true) (fun _ p => Some p)
                (fun _ _ => (Dir true [], @Ok unit unit tt)) (fun s => s)
                (mkArgs ["proj"] 3 true false) ex_world (Ok "y"))) = ex_world /\
  snd (run (fun _ => @Ok unit unit tt) (fun _ _ => Ok true) (fun _ p => Some p)
           (fun _ _ => (Dir true [], @Ok unit unit tt)) (fun s => s)
           (mkArgs ["proj"] 3 true false) ex_world (Ok "y")) = [] /\
  (fst (fst (run (fun _ => @Ok unit unit tt) (fun _ _ => Ok true) (fun _ p => Some p)
                 (fun _ _ => (Dir true [], @Ok unit unit tt)) (fun s => s)
                 (mkArgs ["proj"] 3 true false) ex_world (Ok "y"))) = Ok tt \/
   (Some ["proj"] = None /\
    fst (fst (run (fun _ => @Ok unit unit tt) (fun _ _ => Ok true) (fun _ p => Some p)
                  (fun _ _ => (Dir true [], @Ok unit unit tt)) (fun s => s)
                  (mkArgs ["proj"] 3 true false) ex_world (Ok "y")))
      = Err (CannotAccess ["proj"])) \/
   (exists base, Some ["proj"] = Some base /\
    match lookup ex_world base with Some n => find_repos base n 3 | None => [] end = [] /\
    fst (fst (run (fun _ => @Ok unit unit tt) (fun _ _ => Ok true) (fun _ p => Some p)
                  (fun _ _ => (Dir true [], @Ok unit unit tt)) (fun s => s)
                  (mkArgs ["proj"] 3 true false) ex_world (Ok "y")))
      = Err (NoRepos base))).
Proof.
  split; [reflexivity |].
  apply (run_dry_run_preserves_fs unit unit unit). reflexivity.
Defined.

(** C6 (code bug): [freed] is a [u64] accumulated with [+=]; when the
    recorded sizes of the deleted candidates add up to 2^64 or more the
    release build wraps around.  Two candidates of recorded size 2^63 are
    both deleted, yet the reported freed total is 0 instead of 2^64. *)
Theorem purge_all_freed_wraps :
  let all_purges := [(["r"], [mkPurge ["r"; "build"] (2 ^ 63)%N;
                              mkPurge ["r"; "target"] (2 ^ 63)%N])] in
  purge_all (fun w _ => (w, @Ok unit unit tt)) ex_world all_purges =
    (ex_world, 0%N, 0, [(["r"; "build"], true); (["r"; "target"], true)]) /\
  sum_sizes (List.concat (map snd all_purges)) = (2 ^ 64)%N.
Proof. split; reflexivity. Qed.

(** C7 (counterexample): a symbolic link to a directory given as the
    argument is followed by [fs::read_dir]: the file behind it is counted
    although it is reached through a link. *)
Lemma dir_size_follows_argument_link :
  dir_size (Symlink (Some (Dir true [("f", File (Some 5%N))]))) = 5%N /\
  spec_size (Symlink (Some (Dir true [("f", File (Some 5%N))]))) = 0%N.
Proof. split; reflexivity. Qed.

(** C7 (amended): for every path that is not itself a symbolic link, the
    size accountant returns the sum of the byte lengths of the regular files
    in its subtree, entries that are links excluded, an unlistable
    subdirectory and unreadable file metadata counting 0, whenever that sum
    is below 2^64. *)
Theorem dir_size_exact : forall n,
  is_symlink n = false -> (spec_size n < 2 ^ 64)%N -> dir_size n = spec_size n.
Proof.
  intros n Hl Hb. rewrite SizeFacts.dir_size_spec_mod by exact Hl.
  apply N.mod_small. exact Hb.
Qed.

Lemma dir_size_exact_witness :
  is_symlink ex_size_tree = false /\ (spec_size ex_size_tree < 2 ^ 64)%N /\
  dir_size ex_size_tree = spec_size ex_size_tree /\ spec_size ex_size_tree = 11%N.
Proof.
  split; [reflexivity |]. split; [vm_compute; reflexivity |].
  split; [apply dir_size_exact; [reflexivity | vm_compute; reflexivity] | reflexivity].
Defined.

(** ** PurgeScanner *)

Module ScanFacts.

Lemma fold_left_In {A B : Type} (f : list A -> B -> list A) (P : B -> A -> Prop) (x : A) :
  forall es out,
    (forall e out, In e es -> (In x (f out e) <-> In x out \/ P e x)) ->
    (In x (fold_left f es out) <-> In x out \/ exists e, In e es /\ P e x).
Proof.
  induction es as [| e es IH]; intros out Hf; simpl.
  - split; [tauto | intros [H | (e & [] & _)]; exact H].
  - rewrite IH by (intros e' out' Hin; apply Hf; right; exact Hin).
    rewrite (Hf e out (or_introl eq_refl)).
    split.
    + intros [[H | H] | (e' & Hin & H)]; eauto.
    + intros [H | (e' & [<- | Hin] & H)]; eauto.
Qed.

Lemma scanned_read_dir : forall n n' pre c ch,
  read_dir n = read_dir n' -> scanned n pre c ch -> scanned n' pre c ch.
Proof.
  intros n n' pre c ch Heq H. inversion H; subst.
  - eapply scanned_here; [rewrite <- Heq; eassumption | eassumption].
  - eapply scanned_down; [rewrite <- Heq; eassumption | ..]; eassumption.
Qed.

Section Scan.
Context {Repository git_error : Type}.
Variable is_path_ignored : Repository -> string -> result bool git_error.
Variable repo : Repository.
Variable repo_root : PathBuf.

Lemma entries_cand : forall dir es x,
  (exists e, In e es /\ entry_cand is_path_ignored repo repo_root dir e x) <->
  scan_cand is_path_ignored repo repo_root dir (Dir true es) x.
Proof.
  intros dir es x. split.
  - intros ([nm ch] & Hin & Hd & Hl & [(Ht & Hi & ->) | (Ht & Hh & pre & c & ch' & -> & Hs & H1 & H2 & H3 & H4)]).
    + exists [], nm, ch. repeat split; auto. eapply scanned_here; [reflexivity | exact Hin].
    + exists (nm :: pre), c, ch'. rewrite <- !app_assoc in *. simpl in *.
      repeat split; auto. eapply scanned_down; eauto. reflexivity.
  - intros (pre & c & ch & -> & Hs & Hd & Hl & Ht & Hi).
    inversion Hs as [n es' c' ch' Hrd Hin | n es' d dn pre' c' ch' Hrd Hin Hdd Hdl Hdt Hdh Hs'];
      subst; simpl in Hrd; inversion Hrd; subst.
    + exists (c, ch). split; [exact Hin |]. simpl. repeat split; auto.
    + exists (d, dn). split; [exact Hin |]. simpl. repeat split; auto.
      right. repeat split; auto. exists pre', c, ch.
      rewrite <- !app_assoc. simpl. repeat split; auto.
Qed.

Lemma scan_dir_In : forall n dir out x,
  In x (scan_dir is_path_ignored repo repo_root dir n out) <->
  In x out \/ scan_cand is_path_ignored repo repo_root dir n x.
Proof.
  induction n as [l | | | d IH | r es IH] using node_ind'; intros dir out x.
  3, 1, 2: simpl; split; [tauto |];
    intros [H | (pre & c & ch & _ & Hs & _)]; [exact H |];
    inversion Hs; discriminate.
  - simpl. rewrite IH.
    split; intros [H | (pre & c & ch & Hx & Hs & Hrest)]; [left; exact H | | left; exact H |];
      right; exists pre, c, ch; (split; [exact Hx |]); (split; [| exact Hrest]);
      (eapply scanned_read_dir; [| exact Hs]); reflexivity.
  - destruct r.
    2: { simpl. split; [tauto |].
         intros [H | (pre & c & ch & _ & Hs & _)]; [exact H |].
         inversion Hs; discriminate. }
    simpl. rewrite fold_left_In with (P := entry_cand is_path_ignored repo repo_root dir).
    + rewrite entries_cand. reflexivity.
    + intros [nm ch] out' Hin. rewrite Forall_forall in IH. specialize (IH _ Hin). simpl in IH.
      simpl. unfold join.
      destruct (is_dir ch) eqn:Hd; simpl.
      2: { split; [tauto | intros [H | (? & _)]; [exact H | discriminate]]. }
      destruct (is_symlink ch) eqn:Hl; simpl.
      { split; [tauto | intros [H | (_ & ? & _)]; [exact H | discriminate]]. }
      destruct (is_target (to_str_or_empty nm)) eqn:Ht.
      * destruct (ignored_or_false _) eqn:Hi.
        -- rewrite in_app_iff. simpl. split.
           ++ intros [H | [H | []]]; [left; exact H | right; repeat split; auto].
           ++ intros [H | (_ & _ & [(_ & _ & ->) | (? & _)])]; auto; discriminate.
        -- split; [tauto | intros [H | (_ & _ & [(_ & ? & _) | (? & _)])];
                          [exact H | discriminate | discriminate]].
      * destruct (starts_with_dot (to_str_or_empty nm)) eqn:Hh.
        -- split; [tauto | intros [H | (_ & _ & [(? & _) | (_ & ? & _)])];
                          [exact H | discriminate | discriminate]].
        -- rewrite IH. split.
           ++ intros [H | H]; [left; exact H | right; repeat split; auto].
           ++ intros [H | (_ & _ & [(? & _) | (_ & _ & H)])]; auto; discriminate.
Qed.
(** A listed entry that is a non-link directory with a valid UTF-8,
    hidden, non-target basename adds nothing. *)
Lemma scan_skips_hidden : forall dir es1 nm ch es2 out,
  utf8_valid nm = true -> starts_with_dot nm = true -> is_target nm = false ->
  scan_dir is_path_ignored repo repo_root dir (Dir true (es1 ++ (nm, ch) :: es2)) out =
  scan_dir is_path_ignored repo repo_root dir (Dir true (es1 ++ es2)) out.
Proof.
  intros dir es1 nm ch es2 out Hv Hd Ht. simpl. rewrite !fold_left_app. simpl.
  f_equal. unfold to_str_or_empty. rewrite Hv, Ht, Hd.
  destruct (negb (is_dir ch) || is_symlink ch); reflexivity.
Qed.
End Scan.

Lemma is_target_to_str : forall c,
  is_target (to_str_or_empty c) = true <-> In c TARGETS.
Proof.
  intros c. unfold to_str_or_empty, is_target.
  rewrite existsb_exists. split.
  - intros (t & Hin & Heq). destruct (utf8_valid c).
    + apply String.eqb_eq in Heq. subst. exact Hin.
    + apply String.eqb_eq in Heq. subst. simpl in Hin.
      repeat (destruct Hin as [Hin | Hin]; [discriminate |]). destruct Hin.
  - intros Hin.
    assert (Hv : utf8_valid c = true)
      by (simpl in Hin; repeat (destruct Hin as [<- | Hin]; [reflexivity |]); destruct Hin).
    rewrite Hv. exists c. split; [exact Hin | apply String.eqb_refl].
Qed.

Lemma ignored_or_false_true : forall {E} (r : result bool E),
  ignored_or_false r = true <-> r = Ok true.
Proof. intros E [[] | e]; simpl; split; congruence. Qed.

Lemma strip_prefix_app : forall root l, strip_prefix root (root ++ l) = Some l.
Proof.
  induction root as [| a root IH]; intros l; simpl; [reflexivity |].
  rewrite String.eqb_refl. apply IH.
Qed.

Lemma scanned_pre : forall n pre c ch,
  scanned n pre c ch ->
  Forall (fun d => is_target (to_str_or_empty d) = false /\
                   starts_with_dot (to_str_or_empty d) = false) pre.
Proof.
  intros n pre c ch H. induction H; constructor; auto.
Qed.

Lemma find_purgeable_In :
  forall {Repository git_error : Type}
         (repository_open : PathBuf -> result Repository git_error)
         is_path_ignored root n x,
  In x (find_purgeable repository_open is_path_ignored root n) ->
  exists repo, repository_open root = Ok repo /\
    scan_cand is_path_ignored repo root root n x.
Proof.
  intros Repository git_error repository_open is_path_ignored root n x H.
  unfold find_purgeable in H. destruct (repository_open root) as [repo | e]; [| destruct H].
  exists repo. split; [reflexivity |].
  apply scan_dir_In in H. destruct H as [[] | H]. exact H.
Qed.

End ScanFacts.

(** ** Claims about the PurgeScanner *)

(** C1: if [Repository::open] fails the scan yields no candidate (and does
    not fail).  Otherwise a [Purge] is emitted exactly for the entries the
    scanner lists that are non-link directories whose basename is in
    [TARGETS] and for which [is_path_ignored], asked about the path relative
    to the repository root followed by "/", returns [Ok true]; an [Err] of
    the check counts as not ignored.  Its size is [dir_size] of the
    directory. *)
Theorem find_purgeable_iff :
  forall (Repository git_error : Type)
         (repository_open : PathBuf -> result Repository git_error)
         (is_path_ignored : Repository -> string -> result bool git_error)
         (root : PathBuf) (n : node),
  (forall e, repository_open root = Err e ->
     find_purgeable repository_open is_path_ignored root n = []) /\
  (forall repo, repository_open root = Ok repo -> forall x,
     In x (find_purgeable repository_open is_path_ignored root n) <->
     exists pre c ch,
       x = mkPurge (root ++ pre ++ [c]) (dir_size ch) /\ scanned n pre c ch /\
       is_dir ch = true /\ is_symlink ch = false /\ In c TARGETS /\
       is_path_ignored repo (String.append (display (pre ++ [c])) "/") = Ok true).
Proof.
  intros Repository git_error repository_open is_path_ignored root n. split.
  - intros e He. unfold find_purgeable. rewrite He. reflexivity.
  - intros repo Hr x. unfold find_purgeable. rewrite Hr.
    rewrite ScanFacts.scan_dir_In. unfold scan_cand, ignore_query, rel_of.
    split.
    + intros [[] | (pre & c & ch & Hx & Hs & Hd & Hl & Ht & Hi)].
      exists pre, c, ch. rewrite ScanFacts.strip_prefix_app in Hi.
      rewrite ScanFacts.is_target_to_str, ScanFacts.ignored_or_false_true in *.
      repeat split; assumption.
    + intros (pre & c & ch & Hx & Hs & Hd & Hl & Ht & Hi). right.
      exists pre, c, ch. rewrite ScanFacts.strip_prefix_app.
      rewrite ScanFacts.is_target_to_str, ScanFacts.ignored_or_false_true.
      repeat split; assumption.
Qed.

Lemma find_purgeable_iff_witness :
  (forall e, (fun _ : PathBuf => @Ok unit unit tt) ["r"] = Err e ->
     find_purgeable (fun _ => @Ok unit unit tt) (fun _ _ => Ok true) ["r"] ex_scan_tree = []) /\
  (In (mkPurge ["r"; bad_hidden; "build"] 3%N)
      (find_purgeable (fun _ => @Ok unit unit tt) (fun _ _ => Ok true) ["r"] ex_scan_tree) <->
   exists pre c ch,
     mkPurge ["r"; bad_hidden; "build"] 3%N = mkPurge (["r"] ++ pre ++ [c]) (dir_size ch) /\
     scanned ex_scan_tree pre c ch /\
     is_dir ch = true /\ is_symlink ch = false /\ In c TARGETS /\
     (fun _ _ => @Ok bool unit true) tt (String.append (display (pre ++ [c])) "/") = Ok true).
Proof.
  split.
  - apply (find_purgeable_iff unit unit (fun _ => Ok tt) (fun _ _ => Ok true)).
  - exact (proj2 (find_purgeable_iff unit unit (fun _ => Ok tt) (fun _ _ => Ok true) ["r"]
                    ex_scan_tree) tt eq_refl (mkPurge ["r"; bad_hidden; "build"] 3%N)).
Defined.

(** C2: within one scan no candidate path is a strict ancestor of another
    (a matched target directory is never entered, ignored or not), so the
    candidate paths are pairwise prefix-free. *)
Theorem find_purgeable_prefix_free :
  forall (Repository git_error : Type)
         (repository_open : PathBuf -> result Repository git_error)
         (is_path_ignored : Repository -> string -> result bool git_error)
         (root : PathBuf) (n : node),
  prefix_free (map path (find_purgeable repository_open is_path_ignored root n)).
Proof.
  intros Repository git_error repository_open is_path_ignored root n p q Hp Hq (s & Hs & Hpq).
  apply in_map_iff in Hp as (x & <- & Hx). apply in_map_iff in Hq as (y & <- & Hy).
  apply ScanFacts.find_purgeable_In in Hx as (r1 & Hr1 & pre1 & c1 & ch1 & -> & Hs1 & _ & _ & Ht1 & _).
  apply ScanFacts.find_purgeable_In in Hy as (r2 & Hr2 & pre2 & c2 & ch2 & -> & Hs2 & _ & _ & Ht2 & _).
  simpl in Hpq. rewrite <- !app_assoc in Hpq. apply app_inv_head in Hpq.
  destruct (exists_last Hs) as (s' & z & ->).
  rewrite !app_assoc in Hpq. simpl in Hpq.
  replace ((pre1 ++ [c1]) ++ s' ++ [z]) with ((pre1 ++ c1 :: s') ++ [z]) in Hpq
    by (rewrite <- !app_assoc; reflexivity).
  apply app_inj_tail in Hpq as [Hpre _].
  pose proof (ScanFacts.scanned_pre _ _ _ _ Hs2) as Hf.
  rewrite Forall_forall in Hf.
  assert (Hin : In c1 pre2) by (rewrite Hpre, <- app_assoc; apply in_elt).
  destruct (Hf c1 Hin) as [Hnt _]. congruence.
Qed.

(** C3 (code bug): the hidden check is made on [to_str().unwrap_or("")],
    so a directory whose basename starts with '.' but is not valid UTF-8 is
    not skipped: the scanner descends into it and reports the ignored
    [build] directory inside it.  The [.git] directory is skipped. *)
Theorem scan_descends_non_utf8_hidden :
  starts_with_dot bad_hidden = true /\ is_target bad_hidden = false /\
  find_purgeable (fun _ => @Ok unit unit tt) (fun _ _ => @Ok bool unit true) ["r"] ex_scan_tree =
  [mkPurge ["r"; bad_hidden; "build"] 3%N; mkPurge ["r"; bad_plain; "node_modules"] 0%N].
Proof. split; [reflexivity | split; reflexivity]. Qed.

(** C10: an entry whose basename is not valid UTF-8 is handled as an
    ordinary directory: a non-link directory with such a name is scanned
    recursively in its place among the entries, as if it were neither a
    target nor hidden; and no candidate ever has such a basename. *)
Theorem scan_non_utf8_is_ordinary :
  (forall (Repository git_error : Type)
          (is_path_ignored : Repository -> string -> result bool git_error)
          repo root dir es1 nm ch es2 out,
   utf8_valid nm = false -> is_dir ch = true -> is_symlink ch = false ->
   scan_dir is_path_ignored repo root dir (Dir true (es1 ++ (nm, ch) :: es2)) out =
   scan_dir is_path_ignored repo root dir (Dir true es2)
     (scan_dir is_path_ignored repo root (dir ++ [nm]) ch
        (scan_dir is_path_ignored repo root dir (Dir true es1) out))) /\
  (forall (Repository git_error : Type)
          (repository_open : PathBuf -> result Repository git_error)
          (is_path_ignored : Repository -> string -> result bool git_error) root n x,
   In x (find_purgeable repository_open is_path_ignored root n) ->
   exists pre c, path x = root ++ pre ++ [c] /\ utf8_valid c = true).
Proof.
  split.
  - intros Repository git_error is_path_ignored repo root dir es1 nm ch es2 out Hv Hd Hl.
    simpl. rewrite fold_left_app. simpl. unfold to_str_or_empty, join.
    rewrite Hv, Hd, Hl. reflexivity.
  - intros Repository git_error repository_open is_path_ignored root n x Hx.
    apply ScanFacts.find_purgeable_In in Hx as (r & _ & pre & c & ch & -> & _ & _ & _ & Ht & _).
    exists pre, c. split; [reflexivity |].
    unfold to_str_or_empty in Ht. destruct (utf8_valid c); [reflexivity | discriminate].
Qed.

Lemma scan_non_utf8_is_ordinary_witness :
  utf8_valid bad_plain = false /\ is_dir (Dir true [("node_modules", Dir true [])]) = true /\
  is_symlink (Dir true [("node_modules", Dir true [])]) = false /\
  scan_dir (fun _ _ => @Ok bool unit true) tt ["r"] ["r"]
    (Dir true ([] ++ (bad_plain, Dir true [("node_modules", Dir true [])]) :: [])) [] =
  scan_dir (fun _ _ => @Ok bool unit true) tt ["r"] ["r"] (Dir true [])
    (scan_dir (fun _ _ => @Ok bool unit true) tt ["r"] (["r"] ++ [bad_plain])
       (Dir true [("node_modules", Dir true [])])
       (scan_dir (fun _ _ => @Ok bool unit true) tt ["r"] ["r"] (Dir true []) [])).
Proof.
  split; [reflexivity |]. split; [reflexivity |]. split; [reflexivity |].
  apply (proj1 scan_non_utf8_is_ordinary); reflexivity.
Defined.

(** ** RepoDiscovery *)

Module DiscoveryFacts.

Lemma disc_depth : forall max_depth depth n rel,
  discovered max_depth depth n rel -> depth <= max_depth.
Proof. intros. inversion H; assumption. Qed.

Lemma disc_same : forall max_depth depth n n' rel,
  join_exists n ".git" = join_exists n' ".git" -> read_dir n = read_dir n' ->
  discovered max_depth depth n rel -> discovered max_depth depth n' rel.
Proof.
  intros max_depth depth n n' rel Hj Hr H. inversion H; subst.
  - apply disc_here; [assumption | congruence].
  - eapply disc_down; [assumption | congruence | rewrite <- Hr; eassumption | eassumption ..].
Qed.

Lemma disc_none : forall max_depth depth n rel,
  join_exists n ".git" = false -> read_dir n = None ->
  ~ discovered max_depth depth n rel.
Proof. intros max_depth depth n rel Hj Hr H. inversion H; congruence. Qed.

Lemma collect_repos_In : forall n p max_depth depth acc x,
  In x (collect_repos n p max_depth depth acc) <->
  In x acc \/ exists rel, x = p ++ rel /\ discovered max_depth depth n rel.
Proof.
  induction n as [l | | | d IH | r es IH] using node_ind'; intros p max_depth depth acc x;
    simpl collect_repos; destruct (Nat.ltb max_depth depth) eqn:Hlt.
  all: try (apply Nat.ltb_lt in Hlt; split; [tauto |];
            intros [H | (rel & _ & Hd)]; [exact H |];
            apply disc_depth in Hd; lia).
  all: apply Nat.ltb_ge in Hlt.
  all: lazymatch goal with
       | |- context [join_exists ?m ".git"] => destruct (join_exists m ".git") eqn:Hj
       | |- _ => idtac
       end.
  all: try (rewrite in_app_iff; simpl; split;
            [ intros [H | [<- | []]]; [left; exact H | right; exists []; split;
                [rewrite app_nil_r; reflexivity | apply disc_here; assumption]]
            | intros [H | (rel & -> & Hd)]; [left; exact H | right; left];
              inversion Hd; subst; [rewrite app_nil_r; reflexivity | congruence] ]).
  all: try (split; [tauto |]; intros [H | (rel & _ & Hd)]; [exact H |];
            exfalso; revert Hd; apply disc_none; [first [exact Hj | reflexivity] | reflexivity]).
  - rewrite IH. split; intros [H | (rel & Hx & Hd)]; [left; exact H | | left; exact H |];
      right; exists rel; (split; [exact Hx |]); (eapply disc_same; [| | exact Hd]);
      simpl; auto.
  - destruct r.
    2: { split; [tauto |]. intros [H | (rel & _ & Hd)]; [exact H |].
         exfalso; eapply disc_none; [exact Hj | | exact Hd]; reflexivity. }
    rewrite ScanFacts.fold_left_In with
      (P := fun e x => let '(nm, ch) := e in
              is_dir ch = true /\ is_symlink ch = false /\
              exists rel, x = (p ++ [nm]) ++ rel /\ discovered max_depth (S depth) ch rel).
    + split.
      * intros [H | ([nm ch] & Hin & Hd & Hl & rel & -> & Hdisc)]; [left; exact H |].
        right. exists (nm :: rel). rewrite <- app_assoc. split; [reflexivity |].
        eapply disc_down; eauto. reflexivity.
      * intros [H | (rel & -> & Hdisc)]; [left; exact H |]. right.
        inversion Hdisc as [? ? ? Hj' | ? ? es' c ch rel' _ _ Hrd Hin Hd Hl Hdisc'];
          subst; [congruence |].
        simpl in Hrd. inversion Hrd; subst.
        exists (c, ch). split; [exact Hin |]. repeat split; auto.
        exists rel'. rewrite <- app_assoc. split; [reflexivity | exact Hdisc'].
    + intros [nm ch] acc' Hin. rewrite Forall_forall in IH. specialize (IH _ Hin). simpl in IH.
      destruct (is_dir ch) eqn:Hd; simpl.
      2: { split; [tauto |]. intros [H | (? & _)]; [exact H | discriminate]. }
      destruct (is_symlink ch) eqn:Hl; simpl.
      { split; [tauto |]. intros [H | (_ & ? & _)]; [exact H | discriminate]. }
      rewrite IH. split.
      * intros [H | H]; [left; exact H | right; repeat split; auto].
      * intros [H | (_ & _ & H)]; auto.
Qed.

Lemma path_cmp_antisym : forall p q, path_cmp q p = CompOpp (path_cmp p q).
Proof.
  induction p as [| a p IH]; intros [| b q]; simpl; try reflexivity.
  rewrite (String.compare_antisym b a).
  destruct (String.compare a b) eqn:Hab; simpl; try reflexivity.
  apply String.compare_eq_iff in Hab as ->. apply IH.
Qed.

Lemma path_leb_false : forall p q, path_leb p q = false -> path_le q p.
Proof.
  unfold path_leb, path_le. intros p q H. rewrite path_cmp_antisym.
  destruct (path_cmp p q); simpl; congruence.
Qed.

Lemma path_leb_true : forall p q, path_leb p q = true -> path_le p q.
Proof. unfold path_leb, path_le. intros p q H. destruct (path_cmp p q); congruence. Qed.

Lemma insert_path_hd : forall a p l,
  HdRel path_le a l -> path_le a p -> HdRel path_le a (insert_path p l).
Proof.
  intros a p [| q l] Hl Hp; simpl.
  - constructor; exact Hp.
  - destruct (path_leb p q); constructor; [exact Hp | inversion Hl; assumption].
Qed.

Lemma insert_path_sorted : forall p l, Sorted path_le l -> Sorted path_le (insert_path p l).
Proof.
  intros p l; induction l as [| q l IH]; intros Hs; simpl.
  - repeat constructor.
  - destruct (path_leb p q) eqn:Hpq.
    + constructor; [exact Hs | constructor; apply path_leb_true; exact Hpq].
    + apply Sorted_inv in Hs as [Hs Hq]. constructor; [apply IH; exact Hs |].
      apply insert_path_hd; [exact Hq | apply path_leb_false; exact Hpq].
Qed.

Lemma sort_paths_sorted : forall l, Sorted path_le (sort_paths l).
Proof.
  induction l as [| p l IH]; simpl; [constructor | apply insert_path_sorted; exact IH].
Qed.

Lemma insert_path_perm : forall p l, Permutation (insert_path p l) (p :: l).
Proof.
  intros p l; induction l as [| q l IH]; simpl; [reflexivity |].
  destruct (path_leb p q); [reflexivity |].
  rewrite IH. apply perm_swap.
Qed.

Lemma sort_paths_In : forall l x, In x (sort_paths l) <-> In x l.
Proof.
  induction l as [| p l IH]; intros x; simpl; [tauto |].
  split; intros H.
  - apply (Permutation_in _ (insert_path_perm p _)) in H. destruct H as [H | H]; [left; exact H |].
    right; apply IH; exact H.
  - apply (Permutation_in _ (Permutation_sym (insert_path_perm p _))).
    destruct H as [H | H]; [left; exact H | right; apply IH; exact H].
Qed.

Lemma find_repos_In : forall base n max_depth p,
  In p (find_repos base n max_depth) <->
  exists rel, p = base ++ rel /\ discovered max_depth 0 n rel.
Proof.
  intros. unfold find_repos. rewrite sort_paths_In, collect_repos_In. simpl. tauto.
Qed.

Lemma disc_length : forall max_depth depth n rel,
  discovered max_depth depth n rel -> depth + List.length rel <= max_depth.
Proof.
  intros max_depth depth n rel H; induction H; simpl; lia.
Qed.

Lemma disc_reach : forall max_depth depth n rel,
  discovered max_depth depth n rel -> exists m, reach n rel m /\ join_exists m ".git" = true.
Proof.
  intros max_depth depth n rel H; induction H as [| depth n es c ch rel _ _ Hr Hin _ _ _ (m & Hm & Hj)].
  - exists n. split; [constructor | assumption].
  - exists m. split; [econstructor; eassumption | exact Hj].
Qed.

Lemma nodup_names_unique : forall (es : list (string * node)) c a b,
  nodup_names (map fst es) = true -> In (c, a) es -> In (c, b) es -> a = b.
Proof.
  induction es as [| [nm x] es IH]; intros c a b Hnd Ha Hb; [destruct Ha |].
  simpl in Hnd. apply andb_prop in Hnd as [Hn Hnd].
  assert (Hnot : forall y, In (nm, y) es -> False).
  { intros y Hy. apply negb_true_iff in Hn.
    assert (Hex : existsb (String.eqb nm) (map fst es) = true).
    { apply existsb_exists. exists nm. split; [apply in_map_iff; exists (nm, y); auto |].
      apply String.eqb_refl. }
    congruence. }
  destruct Ha as [Ha | Ha], Hb as [Hb | Hb].
  - congruence.
  - inversion Ha; subst. exfalso; eapply Hnot; exact Hb.
  - inversion Hb; subst. exfalso; eapply Hnot; exact Ha.
  - eapply IH; eassumption.
Qed.

Lemma well_formed_read_dir : forall n es,
  well_formed n = true -> read_dir n = Some es ->
  nodup_names (map fst es) = true /\ forall c ch, In (c, ch) es -> well_formed ch = true.
Proof.
  induction n as [l | | | d IH | r es0 IH] using node_ind'; intros es Hw Hr; simpl in *;
    try discriminate.
  - apply IH; assumption.
  - destruct r; [| discriminate]. inversion Hr; subst.
    apply andb_prop in Hw as [Hnd Hall]. split; [exact Hnd |].
    intros c ch Hin. rewrite forallb_forall in Hall. exact (Hall _ Hin).
Qed.

Lemma disc_prefix_free : forall max_depth depth n rel1,
  discovered max_depth depth n rel1 -> well_formed n = true ->
  forall rel2, discovered max_depth depth n rel2 -> forall s, s <> [] -> rel2 <> rel1 ++ s.
Proof.
  intros max_depth depth n rel1 H; induction H as [depth n _ Hj | depth n es c ch rel _ Hj Hr Hin _ _ Hd IH];
    intros Hw rel2 H2 s Hs Heq.
  - simpl in Heq. subst rel2. inversion H2; subst; [contradiction | congruence].
  - simpl in Heq. subst rel2.
    inversion H2 as [| ? ? es' c' ch' rel' _ _ Hr' Hin' _ _ Hd']; subst.
    rewrite Hr in Hr'. inversion Hr'; subst.
    destruct (well_formed_read_dir _ _ Hw Hr) as [Hnd Hwc].
    assert (ch' = ch) as -> by (eapply nodup_names_unique; eassumption).
    eapply IH; [eapply Hwc; exact Hin | exact Hd' | exact Hs | reflexivity].
Qed.

Lemma collect_repos_unfold : forall n p max_depth depth repos,
  collect_repos n p max_depth depth repos =
  if Nat.ltb max_depth depth then repos
  else if join_exists n ".git" then repos ++ [p]
  else
    match n with
    | Dir true es =>
      fold_left
        (fun acc e =>
           let '(nm, ch) := e in
           if is_dir ch && negb (is_symlink ch)
           then collect_repos ch (p ++ [nm]) max_depth (S depth) acc
           else acc)
        es repos
    | Symlink (Some d) => collect_repos d p max_depth depth repos
    | _ => repos
    end.
Proof. intros [] *; reflexivity. Qed.

Lemma join_exists_In : forall n,
  join_exists n ".git" = true ->
  exists es x, stat_entries n = Some es /\ In (".git", x) es /\ node_exists x = true.
Proof.
  unfold join_exists. intros n H. destruct (stat_entries n) as [es |]; [| discriminate].
  destruct (find _ es) as [[nm x] |] eqn:Hf; [| discriminate].
  apply find_some in Hf as [Hin Heq]. simpl in Heq. apply String.eqb_eq in Heq; subst.
  exists es, x. auto.
Qed.

End DiscoveryFacts.

(** ** Changing where symbolic links point *)

Module RetargetFacts.

Lemma retarget_symlink : forall n n', retarget n n' -> is_symlink n = is_symlink n'.
Proof. intros n n' H; inversion H; reflexivity. Qed.

Lemma retarget_is_dir : forall n n', retarget n n' -> is_symlink n = false ->
  is_dir n = is_dir n'.
Proof. intros n n' H Hl; inversion H; subst; simpl in *; congruence. Qed.

Lemma retarget_exists : forall n n', retarget n n' -> node_exists n = node_exists n'.
Proof. intros n n' H; inversion H; reflexivity. Qed.

Lemma find_retarget : forall es es' name,
  Forall2 (fun e e' => fst e = fst e' /\ retarget (snd e) (snd e')) es es' ->
  match find (fun e => String.eqb (fst e) name) es with
  | Some (_, ch) => node_exists ch | None => false end =
  match find (fun e => String.eqb (fst e) name) es' with
  | Some (_, ch) => node_exists ch | None => false end.
Proof.
  intros es es' name H; induction H as [| [nm ch] [nm' ch'] es es' [Hn Hr] _ IH];
    simpl in *; [reflexivity |].
  subst nm'. destruct (String.eqb nm name); [apply retarget_exists; exact Hr | exact IH].
Qed.

Lemma retarget_join : forall n n' name, retarget n n' -> is_symlink n = false ->
  join_exists n name = join_exists n' name.
Proof.
  intros n n' name H Hl; inversion H; subst; simpl in Hl; try discriminate; try reflexivity.
  unfold join_exists; simpl. apply find_retarget; assumption.
Qed.

Lemma fold_left_Forall2 {A B C : Type} (f : A -> B -> A) (g : A -> C -> A)
      (R : B -> C -> Prop) (Q : B -> Prop) :
  forall es es' a, Forall2 R es es' -> Forall Q es ->
  (forall a e e', Q e -> R e e' -> f a e = g a e') ->
  fold_left f es a = fold_left g es' a.
Proof.
  intros es es' a H; revert a; induction H as [| e e' es es' He _ IH]; intros a HQ Hfg;
    simpl; [reflexivity |].
  inversion HQ; subst. rewrite (Hfg a e e') by assumption. apply IH; assumption.
Qed.

Lemma fold_right_Forall2 {A B C : Type} (f : B -> A -> A) (g : C -> A -> A)
      (R : B -> C -> Prop) (Q : B -> Prop) (a : A) :
  forall es es', Forall2 R es es' -> Forall Q es ->
  (forall a e e', Q e -> R e e' -> f e a = g e' a) ->
  fold_right f a es = fold_right g a es'.
Proof.
  intros es es' H; induction H as [| e e' es es' He _ IH]; intros HQ Hfg;
    simpl; [reflexivity |].
  inversion HQ; subst. rewrite IH by assumption. apply Hfg; assumption.
Qed.

Lemma retarget_collect_repos : forall n n' p max_depth depth acc,
  retarget n n' -> is_symlink n = false ->
  collect_repos n p max_depth depth acc = collect_repos n' p max_depth depth acc.
Proof.
  induction n as [l | | | d IH | r es IH] using node_ind';
    intros n' p max_depth depth acc H Hl; simpl in Hl; try discriminate;
    inversion H as [| | | | r' es0 es' Hes]; subst;
    rewrite !DiscoveryFacts.collect_repos_unfold; try reflexivity.
  rewrite (retarget_join _ _ ".git" H) by reflexivity.
  destruct (Nat.ltb max_depth depth); [reflexivity |].
  destruct (join_exists (Dir r es') ".git"); [reflexivity |].
  destruct r; [| reflexivity].
  eapply fold_left_Forall2; [exact Hes | exact IH |].
  intros a [nm ch] [nm' ch'] IHch [Hn Hr]; simpl in *. subst nm'.
  rewrite (retarget_symlink _ _ Hr).
  destruct (is_symlink ch') eqn:Hl'; [simpl; rewrite !andb_false_r; reflexivity |].
  rewrite <- (retarget_symlink _ _ Hr) in Hl'.
  rewrite (retarget_is_dir _ _ Hr Hl').
  destruct (is_dir ch'); [| reflexivity]. simpl. apply IHch; assumption.
Qed.

Lemma retarget_spec_size : forall n n', retarget n n' -> spec_size n = spec_size n'.
Proof.
  induction n as [l | | | d IH | r es IH] using node_ind';
    intros n' H; inversion H as [| | | | r' es0 es' Hes]; subst; try reflexivity.
  destruct r; [| reflexivity]. simpl.
  eapply fold_right_Forall2; [exact Hes | exact IH |].
  intros a [nm ch] [nm' ch'] IHch [_ Hr]; simpl in *.
  inversion Hr; subst; try reflexivity.
  rewrite (IHch _ Hr). reflexivity.
Qed.

Lemma retarget_dir_size : forall n n', retarget n n' -> is_symlink n = false ->
  dir_size n = dir_size n'.
Proof.
  intros n n' H Hl.
  rewrite !SizeFacts.dir_size_spec_mod, (retarget_spec_size _ _ H);
    [reflexivity | rewrite <- (retarget_symlink _ _ H) | ]; exact Hl.
Qed.

Section Scan.
Context {Repository git_error : Type}.
Variable is_path_ignored : Repository -> string -> result bool git_error.

Lemma retarget_scan_dir : forall n n' repo root dir out,
retarget n n' -> is_symlink n = false ->
scan_dir is_path_ignored repo root dir n out = scan_dir is_path_ignored repo root dir n' out.
Proof.
induction n as [l | | | d IH | r es IH] using node_ind';
  intros n' repo root dir out H Hl; simpl in Hl; try discriminate;
  inversion H as [| | | | r' es0 es' Hes]; subst; try reflexivity.
destruct r; [| reflexivity]. simpl.
eapply fold_left_Forall2; [exact Hes | exact IH |].
intros a [nm ch] [nm' ch'] IHch [Hn Hr]; simpl in *. subst nm'.
rewrite (retarget_symlink _ _ Hr).
destruct (is_symlink ch') eqn:Hl'; [rewrite !orb_true_r; reflexivity |].
rewrite <- (retarget_symlink _ _ Hr) in Hl'.
rewrite (retarget_is_dir _ _ Hr Hl'), (retarget_dir_size _ _ Hr Hl').
destruct (is_dir ch'); [| reflexivity]. simpl.
destruct (is_target _); [reflexivity |].
destruct (starts_with_dot _); [reflexivity |].
apply IHch; assumption.
Qed.

End Scan.

End RetargetFacts.

(** ** Claims about repository discovery *)

(** C5 (counterexample): the root lists nothing ([read_dir] fails), yet its
    [.git] entry can be stat'ed by name, so the root is recorded: an
    unreadable directory is not always without contribution. *)
Theorem find_repos_records_unlistable :
  read_dir ex_unlistable = None /\ find_repos ["r"] ex_unlistable 3 = [["r"]].
Proof. split; reflexivity. Qed.

(** C5 (amended): [find_repos] returns a sorted list; its elements are
    exactly the paths [base ++ rel] such that [discovered] holds (a marker
    found by [join_exists] stops the descent, only listable non-symlink
    subdirectories are entered, up to [max_depth]); every element is at
    most [max_depth] levels below [base]; a root with a marker gives
    exactly [[base]]; a root whose listing fails contributes at most the
    root itself; on a filesystem with unique names in each directory no
    recorded path is a strict prefix of another. *)
Theorem find_repos_spec : forall (base : PathBuf) (n : node) (max_depth : nat),
  Sorted path_le (find_repos base n max_depth) /\
  (forall p, In p (find_repos base n max_depth) <->
     exists rel, p = base ++ rel /\ discovered max_depth 0 n rel) /\
  (forall p, In p (find_repos base n max_depth) ->
     exists rel, p = base ++ rel /\ List.length rel <= max_depth) /\
  (join_exists n ".git" = true -> find_repos base n max_depth = [base]) /\
  (read_dir n = None -> forall p, In p (find_repos base n max_depth) -> p = base) /\
  (well_formed n = true -> prefix_free (find_repos base n max_depth)).
Proof.
  intros base n max_depth.
  split; [apply DiscoveryFacts.sort_paths_sorted |].
  split; [apply DiscoveryFacts.find_repos_In |].
  split.
  { intros p Hp. apply DiscoveryFacts.find_repos_In in Hp as (rel & -> & Hd).
    exists rel. split; [reflexivity |]. apply DiscoveryFacts.disc_length in Hd. lia. }
  split.
  { intros Hj. unfold find_repos. rewrite DiscoveryFacts.collect_repos_unfold, Hj.
    destruct max_depth; reflexivity. }
  split.
  { intros Hr p Hp. apply DiscoveryFacts.find_repos_In in Hp as (rel & -> & Hd).
    inversion Hd; subst; [apply app_nil_r | congruence]. }
  intros Hw p q Hp Hq (s & Hs & Hpq).
  apply DiscoveryFacts.find_repos_In in Hp as (rel1 & -> & Hd1).
  apply DiscoveryFacts.find_repos_In in Hq as (rel2 & -> & Hd2).
  rewrite <- app_assoc in Hpq. apply app_inv_head in Hpq.
  exact (DiscoveryFacts.disc_prefix_free _ _ _ _ Hd1 Hw _ Hd2 _ Hs Hpq).
Qed.

Lemma find_repos_spec_witness :
  join_exists ex_gitfile ".git" = true /\ find_repos ["r"] ex_gitfile 0 = [["r"]] /\
  read_dir ex_unlistable = None /\
  (forall p, In p (find_repos ["r"] ex_unlistable 3) -> p = ["r"]) /\
  well_formed ex_repos_tree = true /\ prefix_free (find_repos ["home"] ex_repos_tree 3).
Proof.
  split; [reflexivity |].
  split; [exact (proj1 (proj2 (proj2 (proj2 (find_repos_spec ["r"] ex_gitfile 0)))) eq_refl) |].
  split; [reflexivity |].
  split; [exact (proj1 (proj2 (proj2 (proj2 (proj2 (find_repos_spec ["r"] ex_unlistable 3)))))
                   eq_refl) |].
  split; [reflexivity |].
  exact (proj2 (proj2 (proj2 (proj2 (proj2 (find_repos_spec ["home"] ex_repos_tree 3)))))
           eq_refl).
Defined.

(** C9 (counterexample): a worktree whose [.git] is a regular file is
    recorded; [Path::exists] does not ask for a directory. *)
Theorem find_repos_gitfile_marker :
  find_repos ["w"] ex_gitfile 3 = [["w"]] /\ is_dir (File (Some 10%N)) = false.
Proof. split; reflexivity. Qed.

(** C9 (amended): every recorded path [base ++ rel] names a directory [m]
    reached from the root along [rel] that has an entry [.git] which
    exists (a directory, a file, a special file or a link with a
    destination), not necessarily a directory. *)
Theorem find_repos_marker_exists : forall base n max_depth p,
  In p (find_repos base n max_depth) ->
  exists rel m es x, p = base ++ rel /\ reach n rel m /\
    stat_entries m = Some es /\ In (".git", x) es /\ node_exists x = true.
Proof.
  intros base n max_depth p Hp.
  apply DiscoveryFacts.find_repos_In in Hp as (rel & -> & Hd).
  apply DiscoveryFacts.disc_reach in Hd as (m & Hm & Hj).
  apply DiscoveryFacts.join_exists_In in Hj as (es & x & Hs & Hin & Hx).
  exists rel, m, es, x. auto.
Qed.

Lemma find_repos_marker_exists_witness :
  In ["w"] (find_repos ["w"] ex_gitfile 3) /\
  exists rel m es x, ["w"] = ["w"] ++ rel /\ reach ex_gitfile rel m /\
    stat_entries m = Some es /\ In (".git", x) es /\ node_exists x = true.
Proof.
  split; [left; reflexivity |].
  apply (find_repos_marker_exists ["w"] ex_gitfile 3). left; reflexivity.
Defined.

(** C8: no walker looks through a symbolic link.  Changing the destination
    of any link inside a tree whose root is not itself a link (the root is
    a canonical path, a discovered directory or a candidate) changes
    neither the repositories found, nor the candidates of a scan (with
    any repository oracle), nor the size computed by [dir_size]. *)
Theorem walkers_ignore_link_targets :
  forall (Repository git_error : Type)
         (repository_open : PathBuf -> result Repository git_error)
         (is_path_ignored : Repository -> string -> result bool git_error)
         (base : PathBuf) (max_depth : nat) (n n' : node),
  retarget n n' -> is_symlink n = false ->
  find_repos base n max_depth = find_repos base n' max_depth /\
  find_purgeable repository_open is_path_ignored base n =
    find_purgeable repository_open is_path_ignored base n' /\
  dir_size n = dir_size n'.
Proof.
  intros Repository git_error repository_open is_path_ignored base max_depth n n' H Hl.
  split; [unfold find_repos; rewrite (RetargetFacts.retarget_collect_repos n n') by assumption;
          reflexivity |].
  split; [| apply RetargetFacts.retarget_dir_size; assumption].
  unfold find_purgeable. destruct (repository_open base); [| reflexivity].
  apply RetargetFacts.retarget_scan_dir; assumption.
Qed.

Lemma walkers_ignore_link_targets_witness :
  retarget (ex_linked (Dir true [(".git", Dir true []); ("f", File (Some 7%N))]))
           (ex_linked (File (Some 1000%N))) /\
  find_repos ["h"] (ex_linked (Dir true [(".git", Dir true []); ("f", File (Some 7%N))])) 3 =
    find_repos ["h"] (ex_linked (File (Some 1000%N))) 3 /\
  find_purgeable (fun _ => @Ok unit unit tt) (fun _ _ => Ok true) ["h"]
    (ex_linked (Dir true [(".git", Dir true []); ("f", File (Some 7%N))])) =
    find_purgeable (fun _ => @Ok unit unit tt) (fun _ _ => Ok true) ["h"]
      (ex_linked (File (Some 1000%N))) /\
  dir_size (ex_linked (Dir true [(".git", Dir true []); ("f", File (Some 7%N))])) =
    dir_size (ex_linked (File (Some 1000%N))).
Proof.
  assert (H : retarget (ex_linked (Dir true [(".git", Dir true []); ("f", File (Some 7%N))]))
                       (ex_linked (File (Some 1000%N)))).
  { unfold ex_linked. repeat constructor. }
  split; [exact H |].
  exact (walkers_ignore_link_targets unit unit (fun _ => Ok tt) (fun _ _ => Ok true)
           ["h"] 3 _ _ H eq_refl).
Defined.

(** ** Human-readable sizes and the report *)

Module ReportFacts.

Lemma rhe_bounds : forall num den, (0 < den)%N ->
  (2 * den * round_half_even num den <= 2 * num + den)%N /\
  (2 * num <= 2 * den * round_half_even num den + den)%N.
Proof.
  intros num den Hd. unfold round_half_even.
  pose proof (N.div_mod num den ltac:(lia)) as Hdm.
  pose proof (N.mod_lt num den ltac:(lia)) as Hlt.
  set (q := (num / den)%N) in *. set (r := (num mod den)%N) in *.
  destruct (den <? 2 * r)%N eqn:H1; [apply N.ltb_lt in H1 | apply N.ltb_ge in H1].
  { split; nia. }
  destruct (2 * r <? den)%N eqn:H2; [apply N.ltb_lt in H2 | apply N.ltb_ge in H2].
  { split; nia. }
  destruct (N.even q); split; nia.
Qed.

Lemma size_small : forall b, (b < 2 ^ 53)%N -> (N.size b <= 53)%N.
Proof.
  intros b Hb. pose proof (N.size_le b) as H.
  destruct (N.le_gt_cases (N.size b) 53) as [Hle | Hgt]; [exact Hle |].
  exfalso. assert (Hp : (2 ^ 54 <= 2 ^ N.size b)%N) by (apply N.pow_le_mono_r; lia).
  rewrite N.succ_double_spec in H. lia.
Qed.

Lemma u64_to_f64_small : forall b, (b < 2 ^ 53)%N -> u64_to_f64 b = b.
Proof.
  intros b Hb. unfold u64_to_f64. apply size_small, N.leb_le in Hb. rewrite Hb. reflexivity.
Qed.

(** Converting a [u64] to [f64] moves it by at most 1024. *)
Lemma u64_to_f64_error : forall b, (b < 2 ^ 64)%N ->
  (u64_to_f64 b <= b + 1024)%N /\ (b <= u64_to_f64 b + 1024)%N.
Proof.
  intros b Hb. unfold u64_to_f64.
  destruct (N.size b <=? 53)%N eqn:Hk; [lia |]. apply N.leb_gt in Hk.
  assert (Hk64 : (N.size b <= 64)%N).
  { pose proof (N.size_le b) as H. rewrite N.succ_double_spec in H.
    destruct (N.le_gt_cases (N.size b) 64) as [Hle | Hgt]; [exact Hle |].
    assert (Hp : (2 ^ 65 <= 2 ^ N.size b)%N) by (apply N.pow_le_mono_r; lia). lia. }
  set (s := (N.size b - 53)%N).
  assert (Hs : (2 ^ s = 2 * 2 ^ (s - 1))%N).
  { rewrite <- N.pow_succ_r'. f_equal. lia. }
  assert (Hh : (2 ^ (s - 1) <= 1024)%N).
  { replace 1024%N with (2 ^ 10)%N by reflexivity. apply N.pow_le_mono_r; lia. }
  assert (Hpos : (0 < 2 ^ s)%N) by (apply N.neq_0_lt_0, N.pow_nonzero; discriminate).
  pose proof (N.div_mod b (2 ^ s) ltac:(lia)) as Hdm.
  pose proof (N.mod_lt b (2 ^ s) ltac:(lia)) as Hlt.
  set (q := (b / 2 ^ s)%N) in *. set (r := (b mod 2 ^ s)%N) in *.
  set (h := (2 ^ (s - 1))%N) in *.
  destruct ((h <? r)%N || ((r =? h)%N && N.odd q)) eqn:Hc.
  - apply orb_true_iff in Hc as [Hc | Hc].
    + apply N.ltb_lt in Hc. split; nia.
    + apply andb_true_iff in Hc as [Hc _]. apply N.eqb_eq in Hc. split; nia.
  - apply orb_false_iff in Hc as [Hc _]. apply N.ltb_ge in Hc. split; nia.
Qed.

Lemma dec_parse : forall n,
  option_map N.of_uint (NilZero.uint_of_string (dec n)) = Some n.
Proof.
  intros n. unfold dec. rewrite NilZero.usu.
  - simpl. rewrite DecimalN.Unsigned.of_to. reflexivity.
  - intros H. pose proof (DecimalN.Unsigned.of_to n) as Ho. rewrite H in Ho.
    simpl in Ho. subst n. discriminate H.
Qed.

Lemma sum_sizes_app : forall l1 l2, sum_sizes (l1 ++ l2) = (sum_sizes l1 + sum_sizes l2)%N.
Proof. induction l1 as [| p l1 IH]; intros l2; simpl; [reflexivity | rewrite IH; lia]. Qed.

Lemma report_purge_fold : forall repo ps lines ts tc, (ts < 2 ^ 64)%N ->
  fold_left (report_purge repo) ps (lines, ts, tc) =
  (lines ++ map (purge_line repo) ps, ((ts + sum_sizes ps) mod 2 ^ 64)%N,
   tc + List.length ps).
Proof.
  induction ps as [| p ps IH]; intros lines ts tc Hts; simpl.
  - rewrite app_nil_r, N.add_0_r, N.mod_small, Nat.add_0_r by exact Hts. reflexivity.
  - rewrite IH by (apply N.mod_upper_bound; discriminate).
    unfold u64_add. rewrite N.Div0.add_mod_idemp_l, <- app_assoc, N.add_assoc.
    unfold purge_line, rel_of. simpl. f_equal. f_equal. lia.
Qed.

Lemma report_repo_fold : forall base all lines ts tc, (ts < 2 ^ 64)%N ->
  fold_left (report_repo base) all (lines, ts, tc) =
  (lines ++ List.concat (map (repo_block base) all),
   ((ts + sum_sizes (List.concat (map snd all))) mod 2 ^ 64)%N,
   tc + List.length (List.concat (map snd all))).
Proof.
  induction all as [| [r ps] all IH]; intros lines ts tc Hts; simpl.
  - rewrite app_nil_r, N.add_0_r, N.mod_small, Nat.add_0_r by exact Hts. reflexivity.
  - rewrite report_purge_fold by exact Hts.
    rewrite IH by (apply N.mod_upper_bound; discriminate).
    rewrite N.Div0.add_mod_idemp_l, sum_sizes_app, length_app, N.add_assoc, Nat.add_assoc.
    unfold repo_block, rel_of. simpl. rewrite <- !app_assoc. reflexivity.
Qed.

End ReportFacts.

(** ** Further properties of the program *)

(** [human_size]: below 1 KiB the exact byte count is printed in decimal,
    followed by " B"; the digits read back as the count. *)
Theorem human_size_bytes_exact : forall b, (b < 1024)%N ->
  exists s, human_size b = String.append s " B" /\
    option_map N.of_uint (NilZero.uint_of_string s) = Some b.
Proof.
  intros b Hb. exists (dec b). split; [| apply ReportFacts.dec_parse].
  unfold human_size, GIB, MIB, KIB.
  replace (1024 * (1024 * 1024) <=? b)%N with false by (symmetry; apply N.leb_gt; lia).
  replace (1024 * 1024 <=? b)%N with false by (symmetry; apply N.leb_gt; lia).
  replace (1024 <=? b)%N with false by (symmetry; apply N.leb_gt; lia).
  reflexivity.
Qed.

Lemma human_size_bytes_exact_witness :
  (1000 < 1024)%N /\ exists s, human_size 1000 = String.append s " B" /\
    option_map N.of_uint (NilZero.uint_of_string s) = Some 1000%N.
Proof. split; [lia | apply human_size_bytes_exact; lia]. Defined.

(** [human_size]: from 1 KiB up to 1 MiB the size is printed as a whole
    number [k] of KiB, followed by " KiB", with [k * 1024] within 512 bytes
    of the size (rounding to nearest). *)
Theorem human_size_kib_accuracy : forall b, (1024 <= b < 1024 * 1024)%N ->
  exists k, human_size b = String.append (dec k) " KiB" /\
    (1024 * k <= b + 512)%N /\ (b <= 1024 * k + 512)%N.
Proof.
  intros b Hb. unfold human_size, GIB, MIB, KIB, fmt_prec0.
  replace (1024 * (1024 * 1024) <=? b)%N with false by (symmetry; apply N.leb_gt; lia).
  replace (1024 * 1024 <=? b)%N with false by (symmetry; apply N.leb_gt; lia).
  replace (1024 <=? b)%N with true by (symmetry; apply N.leb_le; lia).
  rewrite ReportFacts.u64_to_f64_small by lia.
  exists (round_half_even b 1024). split; [reflexivity |].
  destruct (ReportFacts.rhe_bounds b 1024 ltac:(lia)). lia.
Qed.

Lemma human_size_kib_accuracy_witness :
  (1024 <= 1536 < 1024 * 1024)%N /\
  exists k, human_size 1536 = String.append (dec k) " KiB" /\
    (1024 * k <= 1536 + 512)%N /\ (1536 <= 1024 * k + 512)%N.
Proof. split; [lia | apply human_size_kib_accuracy; lia]. Defined.

(** [human_size]: from 1 MiB up to 1 GiB the size is printed with one
    decimal, [t / 10] "." [t mod 10] followed by " MiB", where [t] tenths
    of a MiB are within half a tenth of the size. *)
Theorem human_size_mib_accuracy : forall b, (1024 * 1024 <= b < 1024 * 1024 * 1024)%N ->
  exists t, human_size b =
    String.append (String.append (dec (t / 10)) (String.append "." (dec (t mod 10)))) " MiB" /\
    (2 ^ 20 * t <= 10 * b + 2 ^ 19)%N /\ (10 * b <= 2 ^ 20 * t + 2 ^ 19)%N.
Proof.
  intros b Hb. unfold human_size, GIB, MIB, KIB, fmt_prec1.
  replace (1024 * (1024 * 1024) <=? b)%N with false by (symmetry; apply N.leb_gt; lia).
  replace (1024 * 1024 <=? b)%N with true by (symmetry; apply N.leb_le; lia).
  rewrite ReportFacts.u64_to_f64_small by lia.
  exists (round_half_even (10 * b) (1024 * 1024)). split; [reflexivity |].
  destruct (ReportFacts.rhe_bounds (10 * b) (1024 * 1024) ltac:(lia)).
  replace (2 ^ 20)%N with (1024 * 1024)%N by reflexivity.
  replace (2 ^ 19)%N with 524288%N by reflexivity. lia.
Qed.

Lemma human_size_mib_accuracy_witness :
  (1024 * 1024 <= 5000000 < 1024 * 1024 * 1024)%N /\
  exists t, human_size 5000000 =
    String.append (String.append (dec (t / 10)) (String.append "." (dec (t mod 10)))) " MiB" /\
    (2 ^ 20 * t <= 10 * 5000000 + 2 ^ 19)%N /\ (10 * 5000000 <= 2 ^ 20 * t + 2 ^ 19)%N.
Proof. split; [lia | apply human_size_mib_accuracy; lia]. Defined.

(** [human_size]: from 1 GiB up to the largest [u64] the size is printed
    with one decimal followed by " GiB"; the [t] tenths of a GiB shown are
    within half a tenth of the size, up to the 1024-byte error of the
    conversion [bytes as f64]. *)
Theorem human_size_gib_accuracy : forall b, (1024 * 1024 * 1024 <= b < 2 ^ 64)%N ->
  exists t, human_size b =
    String.append (String.append (dec (t / 10)) (String.append "." (dec (t mod 10)))) " GiB" /\
    (2 ^ 30 * t <= 10 * b + 2 ^ 29 + 10240)%N /\ (10 * b <= 2 ^ 30 * t + 2 ^ 29 + 10240)%N.
Proof.
  intros b Hb. unfold human_size, GIB, MIB, KIB, fmt_prec1.
  replace (1024 * (1024 * 1024) <=? b)%N with true by (symmetry; apply N.leb_le; lia).
  destruct (ReportFacts.u64_to_f64_error b ltac:(lia)) as [Hf1 Hf2].
  set (f := u64_to_f64 b) in *.
  exists (round_half_even (10 * f) (1024 * (1024 * 1024))). split; [reflexivity |].
  destruct (ReportFacts.rhe_bounds (10 * f) (1024 * (1024 * 1024)) ltac:(lia)).
  replace (2 ^ 30)%N with (1024 * (1024 * 1024))%N by reflexivity.
  replace (2 ^ 29)%N with 536870912%N by reflexivity. lia.
Qed.

Lemma human_size_gib_accuracy_witness :
  (1024 * 1024 * 1024 <= 2 ^ 63 < 2 ^ 64)%N /\
  exists t, human_size (2 ^ 63) =
    String.append (String.append (dec (t / 10)) (String.append "." (dec (t mod 10)))) " GiB" /\
    (2 ^ 30 * t <= 10 * 2 ^ 63 + 2 ^ 29 + 10240)%N /\
    (10 * 2 ^ 63 <= 2 ^ 30 * t + 2 ^ 29 + 10240)%N.
Proof. split; [lia | apply human_size_gib_accuracy; lia]. Defined.

(** [human_size]: rounding can reach the next unit without switching to
    it: every size from 1 MiB - 512 B to just below 1 MiB prints as
    "1024 KiB", and every size from 1073689396 bytes to just below 1 GiB
    prints as "1024.0 MiB". *)
Theorem human_size_rounds_up_to_1024 : forall b,
  ((1024 * 1024 - 512 <= b < 1024 * 1024)%N -> human_size b = "1024 KiB") /\
  ((1073689396 <= b < 1024 * 1024 * 1024)%N -> human_size b = "1024.0 MiB").
Proof.
  intros b. split; intros Hb.
  - destruct (N.eq_dec b (1024 * 1024 - 512)) as [-> | Hne]; [vm_compute; reflexivity |].
    unfold human_size, GIB, MIB, KIB, fmt_prec0.
    replace (1024 * (1024 * 1024) <=? b)%N with false by (symmetry; apply N.leb_gt; lia).
    replace (1024 * 1024 <=? b)%N with false by (symmetry; apply N.leb_gt; lia).
    replace (1024 <=? b)%N with true by (symmetry; apply N.leb_le; lia).
    rewrite ReportFacts.u64_to_f64_small by lia.
    destruct (ReportFacts.rhe_bounds b 1024 ltac:(lia)).
    replace (round_half_even b 1024) with 1024%N by lia. reflexivity.
  - unfold human_size, GIB, MIB, KIB, fmt_prec1.
    replace (1024 * (1024 * 1024) <=? b)%N with false by (symmetry; apply N.leb_gt; lia).
    replace (1024 * 1024 <=? b)%N with true by (symmetry; apply N.leb_le; lia).
    rewrite ReportFacts.u64_to_f64_small by lia.
    destruct (ReportFacts.rhe_bounds (10 * b) (1024 * 1024) ltac:(lia)).
    replace (round_half_even (10 * b) (1024 * 1024)) with 10240%N by lia. reflexivity.
Qed.

Lemma human_size_rounds_up_to_1024_witness :
  (1024 * 1024 - 512 <= 1048100 < 1024 * 1024)%N /\ human_size 1048100 = "1024 KiB" /\
  (1073689396 <= 1073741000 < 1024 * 1024 * 1024)%N /\ human_size 1073741000 = "1024.0 MiB".
Proof.
  split; [lia |]. split; [apply (proj1 (human_size_rounds_up_to_1024 1048100)); lia |].
  split; [lia | apply (proj2 (human_size_rounds_up_to_1024 1073741000)); lia].
Defined.

(** The report loop of [run]: it prints, for each repository in order, its
    path relative to the scanned root, then one line per candidate with the
    candidate's path relative to the repository and its [human_size]; then
    a summary line.  [total_count] is the number of candidates and
    [total_size] the sum of their sizes modulo 2^64 ([u64] [+=]). *)
Theorem report_shape : forall base all_purges,
  report base all_purges =
  (List.concat (map (repo_block base) all_purges) ++
     [summary_line (List.length (List.concat (map snd all_purges)))
                   (sum_sizes (List.concat (map snd all_purges)) mod 2 ^ 64)],
   (sum_sizes (List.concat (map snd all_purges)) mod 2 ^ 64)%N,
   List.length (List.concat (map snd all_purges))).
Proof.
  intros base all_purges. unfold report.
  rewrite ReportFacts.report_repo_fold by (vm_compute; reflexivity). reflexivity.
Qed.

(** The path the report prints for a candidate of a repository scan is the
    path, relative to the repository, that git answered "ignored" for
    (with "/" appended); it ends with a target name. *)
Theorem report_shows_ignored_path :
  forall (Repository git_error : Type)
         (repository_open : PathBuf -> result Repository git_error)
         (is_path_ignored : Repository -> string -> result bool git_error)
         (r : PathBuf) (n : node) (x : Purge),
  In x (find_purgeable repository_open is_path_ignored r n) ->
  exists repo pre c,
    repository_open r = Ok repo /\ rel_of r (path x) = pre ++ [c] /\ In c TARGETS /\
    purge_line r x = cand_line (display (pre ++ [c])) (human_size (size x)) /\
    is_path_ignored repo (String.append (display (pre ++ [c])) "/") = Ok true.
Proof.
  intros Repository git_error repository_open is_path_ignored r n x Hx.
  apply ScanFacts.find_purgeable_In in Hx as (repo & Hr & pre & c & ch & -> & _ & _ & _ & Ht & Hi).
  unfold ignore_query, rel_of in Hi. simpl in Hi. rewrite ScanFacts.strip_prefix_app in Hi.
  apply ScanFacts.ignored_or_false_true in Hi.
  exists repo, pre, c. unfold purge_line, rel_of. simpl. rewrite ScanFacts.strip_prefix_app.
  repeat split; auto. apply ScanFacts.is_target_to_str. exact Ht.
Qed.

Lemma report_shows_ignored_path_witness :
  In (mkPurge ["proj"; "build"] 4%N)
     (find_purgeable (fun _ => @Ok unit unit tt) (fun _ _ => Ok true) ["proj"]
        (Dir true [(".git", Dir true []); ("build", Dir true [("out.jar", File (Some 4%N))])])) /\
  exists repo pre c,
    @Ok unit unit tt = Ok repo /\ rel_of ["proj"] ["proj"; "build"] = pre ++ [c] /\
    In c TARGETS /\
    purge_line ["proj"] (mkPurge ["proj"; "build"] 4%N) =
      cand_line (display (pre ++ [c])) (human_size 4%N) /\
    @Ok bool unit true = Ok true.
Proof.
  assert (H : In (mkPurge ["proj"; "build"] 4%N)
     (find_purgeable (fun _ => @Ok unit unit tt) (fun _ _ => Ok true) ["proj"]
        (Dir true [(".git", Dir true []); ("build", Dir true [("out.jar", File (Some 4%N))])])))
    by (vm_compute; left; reflexivity).
  split; [exact H |].
  exact (report_shows_ignored_path unit unit _ _ _ _ _ H).
Defined.

(** ** The control flow of [run] *)

Module RunFacts.

Ltac dmatch H := match type of H with
  | context [match ?x with _ => _ end] => let E := fresh "E" in destruct x eqn:E
  | context [if ?x then _ else _] => let E := fresh "E" in destruct x eqn:E
  end.

(** Splits [run ... = (res, w', tr)] into the cases of its control flow. *)
Ltac run_cases H :=
  unfold run in H; cbv zeta in H; repeat (dmatch H; cbn iota in H);
  injection H; intros; subst.

Lemma purge_all_shape {io_error : Type}
      (remove_dir_all : node -> PathBuf -> node * result unit io_error) all w :
  exists w' freed tr,
    purge_all remove_dir_all w all = (w', freed, count_false (map snd tr), tr) /\
    map fst tr = map path (List.concat (map snd all)).
Proof.
  destruct (PurgeFacts.purge_all_fold remove_dir_all all w 0%N 0 []
              ltac:(vm_compute; reflexivity)) as (w' & tr & Heq & Hmap).
  exists w', ((0 + succ_sizes (List.concat (map snd all)) (map snd tr)) mod 2 ^ 64)%N, tr.
  split; [exact Heq | exact Hmap].
Qed.

Lemma concat_filter_nonempty {A B : Type} (l : list (A * list B)) :
  List.concat (map snd (filter nonempty l)) = List.concat (map snd l).
Proof.
  induction l as [| [a [| b bs]] l IH]; simpl; [reflexivity | exact IH | rewrite IH; reflexivity].
Qed.

Lemma filter_nonempty_cons {A B : Type} (l : list (A * list B)) rp rps :
  filter nonempty l = rp :: rps -> List.concat (map snd (rp :: rps)) <> [].
Proof.
  intros H. assert (Hr : nonempty rp = true).
  { assert (Hin : In rp (filter nonempty l)) by (rewrite H; left; reflexivity).
    apply filter_In in Hin. apply Hin. }
  destruct rp as [a [| b bs]]; [discriminate | simpl; discriminate].
Qed.

(** In a deletion branch of [run]: what [purge_all] returned. *)
Ltac deletion :=
  match goal with
  | E5 : purge_all ?rda ?w ?l = (?w1, ?f, ?e, ?tr) |- _ =>
    let Hs := fresh "Hs" in let Hmap := fresh "Hmap" in
    destruct (purge_all_shape rda l w) as (? & ? & ? & Hs & Hmap);
    rewrite E5 in Hs; injection Hs; intros; subst
  end.

Lemma candidates_paths (F : PathBuf -> list Purge) l :
  map path (List.concat (map snd (filter nonempty (map (fun r => (r, F r)) l)))) =
  List.concat (map (fun r => map path (F r)) l).
Proof.
  rewrite concat_filter_nonempty, concat_map, !map_map. reflexivity.
Qed.

Lemma trace_nonempty {A B : Type} (tr : list (PathBuf * A)) (l : list (B * list Purge)) :
  map fst tr = map path (List.concat (map snd l)) ->
  List.concat (map snd l) <> [] -> tr <> [].
Proof. intros H Hne ->. destruct (List.concat (map snd l)); [contradiction | discriminate]. Qed.

End RunFacts.

(** [run] calls [remove_dir_all] only when the run is not a dry run and
    the user confirmed, by [--yes] or by answering "y", "Y" or "yes" (after
    [trim]); when it removes nothing the filesystem is left as it was. *)
Theorem run_deletes_only_when_confirmed :
  forall (Repository git_error io_error : Type)
         (repository_open : PathBuf -> result Repository git_error)
         (is_path_ignored : Repository -> string -> result bool git_error)
         (canonicalize : node -> PathBuf -> option PathBuf)
         (remove_dir_all : node -> PathBuf -> node * result unit io_error)
         (trim : string -> string) (a : Args) (w : node)
         (stdin : result string io_error) res w' tr,
  run repository_open is_path_ignored canonicalize remove_dir_all trim a w stdin = (res, w', tr) ->
  (tr = [] -> w' = w) /\
  (tr <> [] -> dry_run a = false /\
     (yes a = true \/ exists ans, stdin = Ok ans /\ is_yes trim ans = true)).
Proof.
  intros until tr. intros H. RunFacts.run_cases H.
  all: try (split; [reflexivity | congruence]).
  all: RunFacts.deletion.
  all: match goal with E1 : filter _ _ = _ :: _ |- _ =>
         pose proof (RunFacts.filter_nonempty_cons _ _ _ E1) as Hne end.
  all: split; [intros Htr; exfalso; match goal with Hm : map fst _ = _ |- _ =>
         exact (RunFacts.trace_nonempty _ _ Hm Hne Htr) end |].
  all: intros _; split; [first [assumption | reflexivity] |].
  all: destruct (yes a); [left; reflexivity | right].
  all: destruct stdin; try discriminate.
  all: match goal with E : Ok _ = Ok _ |- _ => injection E; intros end.
  all: eexists; split; [reflexivity | assumption].
Qed.

Lemma run_deletes_only_when_confirmed_witness :
  run (fun _ => @Ok unit unit tt) (fun _ _ => Ok true) (fun _ p => Some p)
      (fun _ _ => (Dir true [], @Ok unit unit tt)) (fun s => s)
      (mkArgs ["proj"] 3 false false) ex_world (Ok "y") =
    (Ok tt, Dir true [], [(["proj"; "build"], true)]) /\
  ([(["proj"; "build"], true)] = [] -> Dir true [] = ex_world) /\
  ([(["proj"; "build"], true)] <> [] -> dry_run (mkArgs ["proj"] 3 false false) = false /\
     (yes (mkArgs ["proj"] 3 false false) = true \/
      exists ans, @Ok string unit "y" = Ok ans /\ is_yes (fun s => s) ans = true)).
Proof.
  assert (H : run (fun _ => @Ok unit unit tt) (fun _ _ => Ok true) (fun _ p => Some p)
      (fun _ _ => (Dir true [], @Ok unit unit tt)) (fun s => s)
      (mkArgs ["proj"] 3 false false) ex_world (Ok "y") =
    (Ok tt, Dir true [], [(["proj"; "build"], true)])) by (vm_compute; reflexivity).
  split; [exact H | exact (run_deletes_only_when_confirmed _ _ _ _ _ _ _ _ _ _ _ _ _ _ H)].
Defined.

(** When [run] removes anything, it calls [remove_dir_all] on the
    candidates of every discovered repository, in the order of the sorted
    repositories and of each scan, each exactly once; it then returns
    [Ok] exactly when no removal failed, and otherwise the error that
    counts the failed removals. *)
Theorem run_removes_all_candidates :
  forall (Repository git_error io_error : Type)
         (repository_open : PathBuf -> result Repository git_error)
         (is_path_ignored : Repository -> string -> result bool git_error)
         (canonicalize : node -> PathBuf -> option PathBuf)
         (remove_dir_all : node -> PathBuf -> node * result unit io_error)
         (trim : string -> string) (a : Args) (w : node)
         (stdin : result string io_error) res w' tr,
  run repository_open is_path_ignored canonicalize remove_dir_all trim a w stdin = (res, w', tr) ->
  tr <> [] ->
  exists base n, canonicalize w (args_path a) = Some base /\ lookup w base = Some n /\
    map fst tr = List.concat (map (fun r => map path (find_purgeable_at repository_open
                                                        is_path_ignored w r))
                                  (find_repos base n (depth a))) /\
    (res = Ok tt <-> count_false (map snd tr) = 0) /\
    (0 < count_false (map snd tr) -> res = Err (RemoveFailed (count_false (map snd tr)))).
Proof.
  intros until tr. intros H Htr. RunFacts.run_cases H; try congruence.
  all: RunFacts.deletion.
  all: match goal with E0 : match lookup ?w ?b with _ => _ end = _ :: _ |- _ =>
         destruct (lookup w b) as [n |] eqn:Hl; [| discriminate] end.
  all: exists p, n; split; [first [assumption | reflexivity] |];
       split; [first [assumption | reflexivity] |].
  all: match goal with E1 : filter _ _ = _ :: _, Hm : map fst _ = _ |- _ =>
         rewrite <- E1 in Hm; rewrite E0 end.
  all: split; [etransitivity; [eassumption | apply RunFacts.candidates_paths] |].
  all: match goal with E8 : Nat.ltb 0 _ = _ |- _ =>
         (apply Nat.ltb_lt in E8 || apply Nat.ltb_ge in E8) end.
  all: split; [split; intros; (discriminate || lia || reflexivity) | intros; (reflexivity || lia)].
Qed.

Lemma run_removes_all_candidates_witness :
  run (fun _ => @Ok unit unit tt) (fun _ _ => Ok true) (fun _ p => Some p)
      (fun w _ => (w, @Err unit unit tt)) (fun s => s)
      (mkArgs ["proj"] 3 false true) ex_world (Ok "n") =
    (Err (RemoveFailed 1), ex_world, [(["proj"; "build"], false)]) /\
  [(["proj"; "build"], false)] <> [] /\
  exists base n, Some ["proj"] = Some base /\ lookup ex_world base = Some n /\
    map fst [(["proj"; "build"], false)] =
      List.concat (map (fun r => map path (find_purgeable_at (fun _ => @Ok unit unit tt)
                                             (fun _ _ => Ok true) ex_world r))
                       (find_repos base n 3)) /\
    (@Err unit run_error (RemoveFailed 1) = Ok tt <->
       count_false (map snd [(["proj"; "build"], false)]) = 0) /\
    (0 < count_false (map snd [(["proj"; "build"], false)]) ->
       @Err unit run_error (RemoveFailed 1) =
         Err (RemoveFailed (count_false (map snd [(["proj"; "build"], false)])))).
Proof.
  assert (H : run (fun _ => @Ok unit unit tt) (fun _ _ => Ok true) (fun _ p => Some p)
      (fun w _ => (w, @Err unit unit tt)) (fun s => s)
      (mkArgs ["proj"] 3 false true) ex_world (Ok "n") =
    (Err (RemoveFailed 1), ex_world, [(["proj"; "build"], false)])) by (vm_compute; reflexivity).
  assert (Hne : [(["proj"; "build"], false)] <> []) by discriminate.
  split; [exact H |]. split; [exact Hne |].
  exact (run_removes_all_candidates _ _ _ _ _ _ _ _ _ _ _ _ _ _ H Hne).
Defined.

(** Every error [run] returns is one of four: the path cannot be
    canonicalized, no repository was found (both before anything is
    removed), the confirmation could not be read (nothing removed), or
    some removals failed, the error then carrying their number. *)
Theorem run_error_cases :
  forall (Repository git_error io_error : Type)
         (repository_open : PathBuf -> result Repository git_error)
         (is_path_ignored : Repository -> string -> result bool git_error)
         (canonicalize : node -> PathBuf -> option PathBuf)
         (remove_dir_all : node -> PathBuf -> node * result unit io_error)
         (trim : string -> string) (a : Args) (w : node)
         (stdin : result string io_error) e w' tr,
  run repository_open is_path_ignored canonicalize remove_dir_all trim a w stdin = (Err e, w', tr) ->
  (e = CannotAccess (args_path a) /\ canonicalize w (args_path a) = None /\ w' = w /\ tr = []) \/
  (exists base, e = NoRepos base /\ canonicalize w (args_path a) = Some base /\
     match lookup w base with Some n => find_repos base n (depth a) | None => [] end = [] /\
     w' = w /\ tr = []) \/
  (e = ReadInputFailed /\ dry_run a = false /\ yes a = false /\
     (exists err, stdin = Err err) /\ w' = w /\ tr = []) \/
  (e = RemoveFailed (count_false (map snd tr)) /\ 0 < count_false (map snd tr)).
Proof.
  intros until tr. intros H. RunFacts.run_cases H; try discriminate.
  all: try RunFacts.deletion.
  all: first
    [ left; repeat split; reflexivity
    | right; left; eexists; repeat split; (eassumption || reflexivity)
    | right; right; left; destruct (yes a); [discriminate |];
      destruct stdin as [ans | err]; [discriminate |];
      match goal with E3 : Err _ = Err _ |- _ => injection E3; intros; subst end;
      repeat split; try reflexivity; try assumption; eexists; reflexivity
    | right; right; right; match goal with E8 : Nat.ltb 0 _ = true |- _ =>
        apply Nat.ltb_lt in E8; split; [reflexivity | exact E8] end ].
Qed.

Lemma run_error_cases_witness :
  run (fun _ => @Ok unit unit tt) (fun _ _ => Ok true) (fun _ p => Some p)
      (fun _ _ => (Dir true [], @Ok unit unit tt)) (fun s => s)
      (mkArgs ["proj"] 3 false false) ex_world (Err tt) =
    (Err ReadInputFailed, ex_world, []) /\
  ((ReadInputFailed = CannotAccess ["proj"] /\ Some ["proj"] = None /\
      ex_world = ex_world /\ @nil (PathBuf * bool) = []) \/
   (exists base, ReadInputFailed = NoRepos base /\ Some ["proj"] = Some base /\
      match lookup ex_world base with Some n => find_repos base n 3 | None => [] end = [] /\
      ex_world = ex_world /\ @nil (PathBuf * bool) = []) \/
   (ReadInputFailed = ReadInputFailed /\ false = false /\ false = false /\
      (exists err, @Err string unit tt = Err err) /\ ex_world = ex_world /\
      @nil (PathBuf * bool) = []) \/
   (ReadInputFailed = RemoveFailed (count_false (map snd (@nil (PathBuf * bool)))) /\
      0 < count_false (map snd (@nil (PathBuf * bool))))).
Proof.
  assert (H : run (fun _ => @Ok unit unit tt) (fun _ _ => Ok true) (fun _ p => Some p)
      (fun _ _ => (Dir true [], @Ok unit unit tt)) (fun s => s)
      (mkArgs ["proj"] 3 false false) ex_world (Err tt) =
    (Err ReadInputFailed, ex_world, [])) by (vm_compute; reflexivity).
  split; [exact H | exact (run_error_cases _ _ _ _ _ _ _ _ _ _ _ _ _ _ H)].
Defined.

(** With [--yes] or [--dry-run], [run] never reads standard input: its
    outcome is the same whatever [read_line] would return. *)
Theorem run_ignores_stdin_when_unprompted :
  forall (Repository git_error io_error : Type)
         (repository_open : PathBuf -> result Repository git_error)
         (is_path_ignored : Repository -> string -> result bool git_error)
         (canonicalize : node -> PathBuf -> option PathBuf)
         (remove_dir_all : node -> PathBuf -> node * result unit io_error)
         (trim : string -> string) (a : Args) (w : node)
         (stdin1 stdin2 : result string io_error),
  yes a = true \/ dry_run a = true ->
  run repository_open is_path_ignored canonicalize remove_dir_all trim a w stdin1 =
  run repository_open is_path_ignored canonicalize remove_dir_all trim a w stdin2.
Proof.
  intros until stdin2. intros [H | H]; unfold run; rewrite H; cbn iota; reflexivity.
Qed.

Lemma run_ignores_stdin_when_unprompted_witness :
  (yes (mkArgs ["proj"] 3 false true) = true \/ dry_run (mkArgs ["proj"] 3 false true) = true) /\
  run (fun _ => @Ok unit unit tt) (fun _ _ => Ok true) (fun _ p => Some p)
      (fun _ _ => (Dir true [], @Ok unit unit tt)) (fun s => s)
      (mkArgs ["proj"] 3 false true) ex_world (Ok "n") =
  run (fun _ => @Ok unit unit tt) (fun _ _ => Ok true) (fun _ p => Some p)
      (fun _ _ => (Dir true [], @Ok unit unit tt)) (fun s => s)
      (mkArgs ["proj"] 3 false true) ex_world (Err tt).
Proof.
  split; [left; reflexivity |].
  apply run_ignores_stdin_when_unprompted. left; reflexivity.
Defined.

(** ** Each repository and each candidate once *)

Module UniqueFacts.

Lemma fold_left_acc {A B : Type} (f : list A -> B -> list A) : forall es acc,
  (forall acc e, In e es -> f acc e = acc ++ f [] e) ->
  fold_left f es acc = acc ++ List.concat (map (f []) es).
Proof.
  induction es as [| e es IH]; intros acc H; simpl; [rewrite app_nil_r; reflexivity |].
  rewrite (H acc e) by (left; reflexivity).
  rewrite IH by (intros; apply H; right; assumption). rewrite app_assoc. reflexivity.
Qed.

Lemma nodup_names_cons : forall nm ch (es : list (string * node)),
  nodup_names (map fst ((nm, ch) :: es)) = true ->
  nodup_names (map fst es) = true /\ forall ch', ~ In (nm, ch') es.
Proof.
  intros nm ch es H. simpl in H. apply andb_prop in H as [Hn Hnd]. split; [exact Hnd |].
  intros ch' Hin. apply negb_true_iff in Hn.
  assert (Hex : existsb (String.eqb nm) (map fst es) = true).
  { apply existsb_exists. exists nm. split; [apply in_map_iff; exists (nm, ch'); auto |].
    apply String.eqb_refl. }
  congruence.
Qed.

Lemma NoDup_concat_prefix {X : Type} (proj : X -> PathBuf) (p : PathBuf)
      (g : string * node -> list X) : forall es,
  nodup_names (map fst es) = true ->
  (forall e, In e es -> NoDup (map proj (g e))) ->
  (forall nm ch x, In (nm, ch) es -> In x (g (nm, ch)) -> exists rel, proj x = p ++ nm :: rel) ->
  NoDup (map proj (List.concat (map g es))).
Proof.
  induction es as [| [nm ch] es IH]; intros Hnd Hg Hp; simpl; [constructor |].
  destruct (nodup_names_cons nm ch es Hnd) as [Hnd' Hnot].
  rewrite map_app. apply NoDup_app.
  - apply Hg. left; reflexivity.
  - apply IH; [exact Hnd' | intros; apply Hg; right; assumption |
               intros; eapply Hp; [right |]; eassumption].
  - intros a Ha1 Ha2.
    apply in_map_iff in Ha1 as (x1 & <- & Hx1). apply in_map_iff in Ha2 as (x2 & Heq & Hx2).
    apply in_concat in Hx2 as (bl & Hbl & Hx2). apply in_map_iff in Hbl as ([nm' ch'] & <- & Hin').
    destruct (Hp nm ch x1 (or_introl eq_refl) Hx1) as (r1 & E1).
    destruct (Hp nm' ch' x2 (or_intror Hin') Hx2) as (r2 & E2).
    rewrite Heq, E1 in E2. apply app_inv_head in E2. inversion E2; subst.
    exact (Hnot ch' Hin').
Qed.

Lemma NoDup_concat_disjoint {X : Type} (G : PathBuf -> list X) : forall rs,
  NoDup rs -> (forall r, In r rs -> NoDup (G r)) ->
  (forall r1 r2 x, In r1 rs -> In r2 rs -> In x (G r1) -> In x (G r2) -> r1 = r2) ->
  NoDup (List.concat (map G rs)).
Proof.
  induction rs as [| r rs IH]; intros Hnd Hg Hd; simpl; [constructor |].
  inversion Hnd as [| ? ? Hnotin Hnd']; subst.
  apply NoDup_app.
  - apply Hg; left; reflexivity.
  - apply IH; [exact Hnd' | intros; apply Hg; right; assumption |
               intros; eapply Hd; [right | right | |]; eassumption].
  - intros a Ha1 Ha2. apply in_concat in Ha2 as (bl & Hbl & Ha2).
    apply in_map_iff in Hbl as (r' & <- & Hr').
    assert (r = r') as -> by (eapply Hd; [left; reflexivity | right; exact Hr' | |]; eassumption).
    contradiction.
Qed.

Lemma well_formed_dir : forall r es,
  well_formed (Dir r es) = true ->
  nodup_names (map fst es) = true /\ forall nm ch, In (nm, ch) es -> well_formed ch = true.
Proof.
  intros r es Hw. simpl in Hw. apply andb_prop in Hw as [Hnd Hall]. split; [exact Hnd |].
  intros nm ch Hin. rewrite forallb_forall in Hall. exact (Hall _ Hin).
Qed.

Lemma collect_repos_acc : forall n p max_depth depth acc,
  collect_repos n p max_depth depth acc = acc ++ collect_repos n p max_depth depth [].
Proof.
  induction n as [l | | | d IH | r es IH] using node_ind'; intros p max_depth depth acc;
    cbn [collect_repos].
  all: destruct (Nat.ltb max_depth depth); [rewrite app_nil_r; reflexivity |].
  all: destruct (join_exists _ ".git"); [reflexivity | try (rewrite app_nil_r; reflexivity)].
  - apply IH.
  - destruct r; [| rewrite app_nil_r; reflexivity].
    rewrite !fold_left_acc; [rewrite app_nil_l; reflexivity | |];
      intros acc' [nm ch] Hin; (destruct (is_dir ch && negb (is_symlink ch));
        [rewrite Forall_forall in IH; apply (IH _ Hin) | rewrite app_nil_r; reflexivity]).
Qed.

Lemma collect_repos_nodup : forall n p max_depth depth,
  well_formed n = true -> NoDup (collect_repos n p max_depth depth []).
Proof.
  induction n as [l | | | d IH | r es IH] using node_ind'; intros p max_depth depth Hw;
    cbn [collect_repos].
  all: destruct (Nat.ltb max_depth depth); [constructor |].
  all: destruct (join_exists _ ".git"); [repeat constructor; intros [] | try constructor].
  - apply IH. exact Hw.
  - destruct r; [| constructor].
    destruct (well_formed_dir _ _ Hw) as [Hnd Hwc].
    rewrite fold_left_acc.
    2: { intros acc' [nm ch] Hin; destruct (is_dir ch && negb (is_symlink ch));
         [apply collect_repos_acc | rewrite app_nil_r; reflexivity]. }
    rewrite app_nil_l, <- (map_id (List.concat _)).
    apply (NoDup_concat_prefix (fun x => x) p); [exact Hnd | |].
    + intros [nm ch] Hin. rewrite map_id.
      destruct (is_dir ch && negb (is_symlink ch)); [| constructor].
      rewrite Forall_forall in IH. apply (IH _ Hin). exact (Hwc _ _ Hin).
    + intros nm ch x Hin Hx. destruct (is_dir ch && negb (is_symlink ch)); [| destruct Hx].
      apply DiscoveryFacts.collect_repos_In in Hx as [[] | (rel & -> & _)].
      exists rel. rewrite <- app_assoc. reflexivity.
Qed.

Lemma sort_paths_perm : forall l, Permutation (sort_paths l) l.
Proof.
  induction l as [| p l IH]; simpl; [reflexivity |].
  rewrite DiscoveryFacts.insert_path_perm, IH. reflexivity.
Qed.

Section Scan.
Context {Repository git_error : Type}.
Variable is_path_ignored : Repository -> string -> result bool git_error.
Variable repo : Repository.
Variable repo_root : PathBuf.

Lemma scan_dir_acc : forall n dir out,
  scan_dir is_path_ignored repo repo_root dir n out =
  out ++ scan_dir is_path_ignored repo repo_root dir n [].
Proof.
  induction n as [l | | | d IH | r es IH] using node_ind'; intros dir out; simpl;
    try (rewrite app_nil_r; reflexivity).
  - apply IH.
  - destruct r; [| rewrite app_nil_r; reflexivity].
    rewrite !fold_left_acc; [rewrite app_nil_l; reflexivity | |];
      intros acc' [nm ch] Hin; simpl;
      (destruct (negb (is_dir ch) || is_symlink ch); [rewrite app_nil_r; reflexivity |]);
      (destruct (is_target _); [destruct (ignored_or_false _);
         [reflexivity | rewrite app_nil_r; reflexivity] |]);
      (destruct (starts_with_dot _); [rewrite app_nil_r; reflexivity |]);
      rewrite Forall_forall in IH; apply (IH _ Hin).
Qed.

Lemma scan_dir_nodup : forall n dir,
  well_formed n = true -> NoDup (map path (scan_dir is_path_ignored repo repo_root dir n [])).
Proof.
  induction n as [l | | | d IH | r es IH] using node_ind'; intros dir Hw; simpl;
    try constructor.
  - apply IH. exact Hw.
  - destruct r; [| constructor].
    destruct (well_formed_dir _ _ Hw) as [Hnd Hwc].
    rewrite fold_left_acc.
    2: { intros acc' [nm ch] Hin; simpl;
      (destruct (negb (is_dir ch) || is_symlink ch); [rewrite app_nil_r; reflexivity |]);
      (destruct (is_target _); [destruct (ignored_or_false _);
         [reflexivity | rewrite app_nil_r; reflexivity] |]);
      (destruct (starts_with_dot _); [rewrite app_nil_r; reflexivity |]);
      apply scan_dir_acc. }
    rewrite app_nil_l. apply (NoDup_concat_prefix path dir); [exact Hnd | |].
    + intros [nm ch] Hin. simpl.
      destruct (negb (is_dir ch) || is_symlink ch); [constructor |].
      destruct (is_target _); [destruct (ignored_or_false _); repeat constructor; intros [] |].
      destruct (starts_with_dot _); [constructor |].
      rewrite Forall_forall in IH. apply (IH _ Hin). exact (Hwc _ _ Hin).
    + intros nm ch x Hin Hx. simpl in Hx.
      destruct (negb (is_dir ch) || is_symlink ch); [destruct Hx |].
      destruct (is_target _).
      { destruct (ignored_or_false _); [| destruct Hx].
        destruct Hx as [<- | []]. exists []. reflexivity. }
      destruct (starts_with_dot _); [destruct Hx |].
      apply ScanFacts.scan_dir_In in Hx as [[] | (pre & c & ch' & -> & _)].
      exists (pre ++ [c]). simpl. unfold join. rewrite <- app_assoc. reflexivity.
Qed.

End Scan.

Lemma lookup_well_formed : forall p w n,
  well_formed w = true -> lookup w p = Some n -> well_formed n = true.
Proof.
  induction p as [| c p IH]; intros w n Hw Hl; simpl in Hl; [congruence |].
  destruct (stat_entries w) as [es |] eqn:Hs; [| discriminate].
  destruct (find _ es) as [[nm ch] |] eqn:Hf; [| discriminate].
  apply find_some in Hf as [Hin _].
  apply (IH ch); [| exact Hl].
  clear IH Hl. induction w as [l | | | d IHd | r es0 _] using node_ind'; simpl in Hs;
    try discriminate.
  - apply IHd; assumption.
  - inversion Hs; subst. destruct (well_formed_dir _ _ Hw) as [_ Hwc]. exact (Hwc _ _ Hin).
Qed.

Lemma find_repos_nodup_aux : forall base n max_depth,
  well_formed n = true -> NoDup (find_repos base n max_depth).
Proof.
  intros base n max_depth Hw. unfold find_repos.
  apply (Permutation_NoDup (Permutation_sym (sort_paths_perm _))).
  apply collect_repos_nodup. exact Hw.
Qed.

Lemma find_purgeable_at_path :
  forall {Repository git_error : Type}
         (repository_open : PathBuf -> result Repository git_error)
         is_path_ignored w r x,
  In x (find_purgeable_at repository_open is_path_ignored w r) ->
  exists s, path x = r ++ s /\ s <> [].
Proof.
  intros Repository git_error repository_open is_path_ignored w r x H.
  unfold find_purgeable_at in H. destruct (lookup w r) as [m |]; [| destruct H].
  apply ScanFacts.find_purgeable_In in H as (repo & _ & pre & c & ch & -> & _).
  exists (pre ++ [c]). split; [reflexivity |]. destruct pre; discriminate.
Qed.

Lemma candidates_nodup :
  forall {Repository git_error : Type}
         (repository_open : PathBuf -> result Repository git_error)
         is_path_ignored w base n max_depth,
  well_formed w = true -> lookup w base = Some n ->
  NoDup (List.concat (map (fun r => map path (find_purgeable_at repository_open
                                                 is_path_ignored w r))
                          (find_repos base n max_depth))).
Proof.
  intros Repository git_error repository_open is_path_ignored w base n max_depth Hw Hl.
  assert (Hwn : well_formed n = true) by exact (lookup_well_formed _ _ _ Hw Hl).
  apply NoDup_concat_disjoint; [apply find_repos_nodup_aux; exact Hwn | |].
  - intros r _. unfold find_purgeable_at.
    destruct (lookup w r) as [m |] eqn:Hm; [| constructor].
    unfold find_purgeable. destruct (repository_open r); [| constructor].
    apply scan_dir_nodup. exact (lookup_well_formed _ _ _ Hw Hm).
  - intros r1 r2 x Hr1 Hr2 Hx1 Hx2.
    apply in_map_iff in Hx1 as (y1 & <- & Hy1). apply in_map_iff in Hx2 as (y2 & Heq & Hy2).
    destruct (find_purgeable_at_path _ _ _ _ _ Hy1) as (s1 & E1 & Hs1).
    destruct (find_purgeable_at_path _ _ _ _ _ Hy2) as (s2 & E2 & Hs2).
    apply DiscoveryFacts.find_repos_In in Hr1 as (rel1 & -> & Hd1).
    apply DiscoveryFacts.find_repos_In in Hr2 as (rel2 & -> & Hd2).
    rewrite Heq, E1, <- !app_assoc in E2. apply app_inv_head in E2.
    apply app_eq_app in E2 as (l & [[El _] | [El _]]); destruct l as [| c l].
    + rewrite app_nil_r in El. subst. reflexivity.
    + exfalso. apply (DiscoveryFacts.disc_prefix_free _ _ _ _ Hd2 Hwn _ Hd1 (c :: l));
        [discriminate | exact El].
    + rewrite app_nil_r in El. subst. reflexivity.
    + exfalso. apply (DiscoveryFacts.disc_prefix_free _ _ _ _ Hd1 Hwn _ Hd2 (c :: l));
        [discriminate | exact El].
Qed.

End UniqueFacts.

(** In a tree whose listings never repeat a name, discovery returns each
    repository path once. *)
Theorem find_repos_nodup : forall base n max_depth,
  well_formed n = true -> NoDup (find_repos base n max_depth).
Proof. exact UniqueFacts.find_repos_nodup_aux. Qed.

Lemma find_repos_nodup_witness :
  well_formed ex_repos_tree = true /\ NoDup (find_repos ["home"] ex_repos_tree 3).
Proof.
  assert (Hw : well_formed ex_repos_tree = true) by (vm_compute; reflexivity).
  split; [exact Hw | exact (find_repos_nodup ["home"] ex_repos_tree 3 Hw)].
Defined.

(** In a tree whose listings never repeat a name, the scan of one
    repository reports each candidate path once. *)
Theorem find_purgeable_nodup :
  forall (Repository git_error : Type)
         (repository_open : PathBuf -> result Repository git_error)
         (is_path_ignored : Repository -> string -> result bool git_error) root n,
  well_formed n = true ->
  NoDup (map path (find_purgeable repository_open is_path_ignored root n)).
Proof.
  intros Repository git_error repository_open is_path_ignored root n Hw.
  unfold find_purgeable. destruct (repository_open root); [| constructor].
  apply UniqueFacts.scan_dir_nodup. exact Hw.
Qed.

Lemma find_purgeable_nodup_witness :
  well_formed (Dir true [("build", Dir true []); ("web", Dir true [("node_modules", Dir true [])])])
    = true /\
  NoDup (map path (find_purgeable (fun _ => @Ok unit unit tt) (fun _ _ => Ok true) ["r"]
    (Dir true [("build", Dir true []); ("web", Dir true [("node_modules", Dir true [])])]))).
Proof.
  assert (Hw : well_formed (Dir true [("build", Dir true []);
                                      ("web", Dir true [("node_modules", Dir true [])])]) = true)
    by (vm_compute; reflexivity).
  split; [exact Hw | exact (find_purgeable_nodup _ _ _ _ _ _ Hw)].
Defined.

(** When the filesystem's listings never repeat a name, [run] asks
    [remove_dir_all] for each path at most once. *)
Theorem run_removes_each_path_once :
  forall (Repository git_error io_error : Type)
         (repository_open : PathBuf -> result Repository git_error)
         (is_path_ignored : Repository -> string -> result bool git_error)
         (canonicalize : node -> PathBuf -> option PathBuf)
         (remove_dir_all : node -> PathBuf -> node * result unit io_error)
         (trim : string -> string) (a : Args) (w : node)
         (stdin : result string io_error) res w' tr,
  well_formed w = true ->
  run repository_open is_path_ignored canonicalize remove_dir_all trim a w stdin = (res, w', tr) ->
  NoDup (map fst tr).
Proof.
  intros until tr. intros Hw H. RunFacts.run_cases H; try constructor.
  all: RunFacts.deletion.
  all: match goal with E0 : match lookup ?w ?b with _ => _ end = _ :: _ |- _ =>
         destruct (lookup w b) as [n |] eqn:Hl; [| discriminate] end.
  all: match goal with E1 : filter _ _ = _ :: _, Hm : map fst _ = _ |- _ =>
         rewrite <- E1 in Hm; rewrite Hm end.
  all: rewrite RunFacts.candidates_paths, <- E0.
  all: apply UniqueFacts.candidates_nodup; assumption.
Qed.

Lemma run_removes_each_path_once_witness :
  well_formed ex_two_repos = true /\
  run (fun _ => @Ok unit unit tt) (fun _ _ => Ok true) (fun _ p => Some p)
      (fun w _ => (w, @Ok unit unit tt)) (fun s => s)
      (mkArgs [] 3 false true) ex_two_repos (Ok "n") =
    (Ok tt, ex_two_repos,
     [(["a"; "build"], true); (["a"; "target"], true); (["b"; "build"], true)]) /\
  NoDup (map fst [(["a"; "build"], true); (["a"; "target"], true); (["b"; "build"], true)]).
Proof.
  assert (Hw : well_formed ex_two_repos = true) by (vm_compute; reflexivity).
  assert (H : run (fun _ => @Ok unit unit tt) (fun _ _ => Ok true) (fun _ p => Some p)
      (fun w _ => (w, @Ok unit unit tt)) (fun s => s)
      (mkArgs [] 3 false true) ex_two_repos (Ok "n") =
    (Ok tt, ex_two_repos,
     [(["a"; "build"], true); (["a"; "target"], true); (["b"; "build"], true)]))
    by (vm_compute; reflexivity).
  split; [exact Hw |]. split; [exact H |].
  exact (run_removes_each_path_once _ _ _ _ _ _ _ _ _ _ _ _ _ _ Hw H).
Defined.

(** When repositories are found but none of them has a candidate, [run]
    succeeds ("Nothing to purge.") and leaves the filesystem untouched,
    whatever the flags and whatever [read_line] would return. *)
Theorem run_nothing_to_purge :
  forall (Repository git_error io_error : Type)
         (repository_open : PathBuf -> result Repository git_error)
         (is_path_ignored : Repository -> string -> result bool git_error)
         (canonicalize : node -> PathBuf -> option PathBuf)
         (remove_dir_all : node -> PathBuf -> node * result unit io_error)
         (trim : string -> string) (a : Args) (w : node)
         (stdin : result string io_error) base n,
  canonicalize w (args_path a) = Some base ->
  lookup w base = Some n ->
  find_repos base n (depth a) <> [] ->
  (forall r, In r (find_repos base n (depth a)) ->
     find_purgeable_at repository_open is_path_ignored w r = []) ->
  run repository_open is_path_ignored canonicalize remove_dir_all trim a w stdin = (Ok tt, w, []).
Proof.
  intros until n. intros Hc Hl Hne Hall. unfold run. rewrite Hc, Hl.
  assert (Hf : forall l, (forall r, In r l ->
                 find_purgeable_at repository_open is_path_ignored w r = []) ->
    filter (fun rp : PathBuf * list Purge => negb match snd rp with [] => true | _ => false end)
      (map (fun r => (r, find_purgeable_at repository_open is_path_ignored w r)) l) = []).
  { induction l as [| r l IH]; intros H; [reflexivity |]. simpl.
    rewrite (H r (or_introl eq_refl)). apply IH. intros; apply H; right; assumption. }
  destruct (find_repos base n (depth a)) as [| r rs] eqn:E; [contradiction |].
  rewrite (Hf (r :: rs) Hall). reflexivity.
Qed.

Lemma run_nothing_to_purge_witness :
  Some ["proj"] = Some ["proj"] /\
  lookup ex_world ["proj"] = Some (Dir true [(".git", Dir true []);
                               ("build", Dir true [("out.jar", File (Some 4%N))])]) /\
  run (fun _ => @Ok unit unit tt) (fun _ _ => Ok false) (fun _ p => Some p)
      (fun w _ => (w, @Err unit unit tt)) (fun s => s)
      (mkArgs ["proj"] 3 false false) ex_world (Err tt) = (Ok tt, ex_world, []).
Proof.
  split; [reflexivity |]. split; [vm_compute; reflexivity |].
  apply (run_nothing_to_purge _ _ _ _ _ _ _ _ _ _ _ ["proj"]
           (Dir true [(".git", Dir true []); ("build", Dir true [("out.jar", File (Some 4%N))])])).
  - reflexivity.
  - vm_compute; reflexivity.
  - vm_compute; discriminate.
  - intros r Hr. vm_compute in Hr. destruct Hr as [<- | []]. vm_compute; reflexivity.
Defined.
